(** * Contributions table and product editor: a shallow embedding

    The development follows two components of the dashboard:

    - [ContributionsTable.tsx]: the status badge, the filter / sort / paginate
      effect that derives the visible rows, the total handed to the data table,
      the page reset on a page-size change and the per-row "Buscar deuda"
      progress button;
    - the product edit drawer: the guarded [handleSubmit] and [handleDelete]
      handlers with their notifications and callbacks.

    JavaScript strings are modelled as [string], a sequence of 8-bit code
    units compared unit by unit; [toLowerCase] and [trim] act on the ASCII
    letters and the ASCII white space and leave every other unit alone.
    Numbers that the code uses as counts and indices are modelled as [Z]. *)

From Stdlib Require Import ZArith List String Ascii Bool Lia.
From Stdlib Require Import Permutation Sorted.
Import ListNotations.
Open Scope string_scope.
Open Scope Z_scope.

(** ** JavaScript built-ins used by the components *)

Module JS.

(** A non-empty string is truthy. *)
Definition truthy_string (s : string) : bool :=
  match s with EmptyString => false | String _ _ => true end.

(** A number is truthy unless it is zero. *)
Definition truthy_number (n : Z) : bool := negb (n =? 0).

Definition is_upper (c : ascii) : bool :=
  let n := N_of_ascii c in (65 <=? n)%N && (n <=? 90)%N.

Definition lower_char (c : ascii) : ascii :=
  if is_upper c then ascii_of_N (N_of_ascii c + 32) else c.

(** [String.prototype.toLowerCase] on the ASCII range. *)
Fixpoint toLowerCase (s : string) : string :=
  match s with
  | EmptyString => EmptyString
  | String c s' => String (lower_char c) (toLowerCase s')
  end.

(** White space and line terminators below code 128: TAB, LF, VT, FF, CR, SP. *)
Definition is_space (c : ascii) : bool :=
  let n := N_of_ascii c in ((9 <=? n)%N && (n <=? 13)%N) || (n =? 32)%N.

Fixpoint trimStart (s : string) : string :=
  match s with
  | EmptyString => EmptyString
  | String c s' => if is_space c then trimStart s' else s
  end.

Fixpoint trimEnd (s : string) : string :=
  match s with
  | EmptyString => EmptyString
  | String c s' =>
      match trimEnd s' with
      | EmptyString => if is_space c then EmptyString else String c EmptyString
      | t => String c t
      end
  end.

(** [String.prototype.trim]. *)
Definition trim (s : string) : string := trimEnd (trimStart s).

(** [s.includes(sub)]: [sub] occurs in [s] at some position. *)
Fixpoint includes (s sub : string) : bool :=
  prefix sub s ||
  match s with
  | EmptyString => false
  | String _ s' => includes s' sub
  end.

(** [Array.prototype.slice(start, end)] with its relative-index rules:
    a negative index counts from the end, and both bounds are clamped to
    [0 .. length]. *)
Definition slice {A : Type} (l : list A) (start end_ : Z) : list A :=
  let len := Z.of_nat (List.length l) in
  let k := if start <? 0 then Z.max (len + start) 0 else Z.min start len in
  let final := if end_ <? 0 then Z.max (len + end_) 0 else Z.min end_ len in
  firstn (Z.to_nat (final - k)) (skipn (Z.to_nat k) l).

(** [Array.prototype.some]. *)
Definition some {A : Type} (f : A -> bool) (l : list A) : bool := existsb f l.

End JS.

(** ** lodash [sortBy]

    [sortBy(collection, iteratee)] returns a new array sorted in ascending
    order by the iteratee, and the sort is stable.  It is modelled by the
    insertion of each element, from the last to the first, in front of the
    first element that does not compare strictly below it. *)

Section SortBy.

Variables A K : Type.
Variable key : A -> K.
Variable leb : K -> K -> bool.

Fixpoint insert (x : A) (l : list A) : list A :=
  match l with
  | [] => [x]
  | y :: l' => if leb (key x) (key y) then x :: l else y :: insert x l'
  end.

Definition sort_by (l : list A) : list A := fold_right insert [] l.

(** Two elements are tied when each key is below the other. *)
Definition tied (k1 k2 : K) : bool := leb k1 k2 && leb k2 k1.

(** The records of [l] that are tied with key [k], in their order in [l]. *)
Definition key_class (k : K) (l : list A) : list A :=
  filter (fun x => tied (key x) k) l.

End SortBy.

Arguments insert {A K} key leb x l.
Arguments sort_by {A K} key leb l.
Arguments tied {K} leb k1 k2.
Arguments key_class {A K} key leb k l.

(** ** ContributionsTable.tsx *)

Module Contributions.

(** [types.ts].  The status is declared as one of three literals; at run time
    it is whatever string the fetched JSON carries. *)
Record Contribution := {
  description : string;
  id : Z;
  name : string;
  propertiesCount : Z;
  status : string
}.

(** *** StatusBadge *)

Record Badge := { color : string; text : string }.

Definition StatusBadge (status : string) : Badge :=
  if (status =? "searched")%string then {| color := "orange"; text := "Buscado" |}
  else if (status =? "pending")%string then {| color := "blue"; text := "Pendiente" |}
  else if (status =? "paid")%string then {| color := "green"; text := "Pagado" |}
  else {| color := "gray"; text := "Sin estado" |}.

Definition PAGE_SIZES : list Z := [5; 10; 20].

(** *** The table: what one render of the component sees *)

(** The columns declared [sortable]. *)
Inductive ColumnAccessor := acc_name | acc_propertiesCount.

Inductive SortDirection := asc | desc.

Record DataTableSortStatus := {
  columnAccessor : ColumnAccessor;
  direction : SortDirection
}.

(** The [data] prop and the state variables read by the effects and by the
    returned element. *)
Record View := {
  data : list Contribution;
  page : Z;
  pageSize : Z;
  records : list Contribution;
  sortStatus : DataTableSortStatus;
  debouncedQuery : string;
  selectedStatuses : list string
}.

Definition initial (d : list Contribution) : View := {|
  data := d;
  page := 1;
  pageSize := nth 0 PAGE_SIZES 0;
  records := JS.slice d 0 (nth 0 PAGE_SIZES 0);
  sortStatus := {| columnAccessor := acc_name; direction := asc |};
  debouncedQuery := "";
  selectedStatuses := []
|}.

(** [sortBy(filtered, sortStatus.columnAccessor)]: strings compare by code
    unit, numbers by value. *)
Definition sortBy (l : list Contribution) (acc : ColumnAccessor) : list Contribution :=
  match acc with
  | acc_name => sort_by name String.leb l
  | acc_propertiesCount => sort_by propertiesCount Z.leb l
  end.

(** The callback given to [data.filter]. *)
Definition filter_callback (debouncedQuery : string) (selectedStatuses : list string)
  (r : Contribution) : bool :=
  if negb (debouncedQuery =? "")%string
     && negb (JS.includes (JS.toLowerCase (name r))
                          (JS.toLowerCase (JS.trim debouncedQuery)))
  then false
  else if JS.truthy_number (Z.of_nat (List.length selectedStatuses))
          && negb (JS.some (fun s => (s =? status r)%string) selectedStatuses)
  then false
  else true.

Definition filtered (v : View) : list Contribution :=
  if JS.truthy_string (debouncedQuery v)
     || JS.truthy_number (Z.of_nat (List.length (selectedStatuses v)))
  then filter (filter_callback (debouncedQuery v) (selectedStatuses v)) (data v)
  else data v.

Definition sorted (v : View) : list Contribution :=
  let sorted := sortBy (filtered v) (columnAccessor (sortStatus v)) in
  match direction (sortStatus v) with
  | desc => rev sorted
  | asc => sorted
  end.

(** The value the second effect hands to [setRecords]. *)
Definition paginated (v : View) : list Contribution :=
  let from := (page v - 1) * pageSize v in
  let to := from + pageSize v in
  JS.slice (sorted v) from to.

(** The [totalRecords] prop of the data table. *)
Definition totalRecords (v : View) : Z :=
  if JS.truthy_string (debouncedQuery v)
     || (Z.of_nat (List.length (selectedStatuses v)) >? 0)
  then Z.of_nat (List.length (records v))
  else Z.of_nat (List.length (data v)).

(** *** Effects and re-rendering

    After a render is committed, React runs the effects whose dependencies
    differ from those of the previous commit, in declaration order; each effect
    reads the values of the render that declared it, and the state updates it
    issues are applied together before the next render. *)

Definition set_page (p : Z) (v : View) : View :=
  {| data := data v; page := p; pageSize := pageSize v; records := records v;
     sortStatus := sortStatus v; debouncedQuery := debouncedQuery v;
     selectedStatuses := selectedStatuses v |}.

Definition set_pageSize (n : Z) (v : View) : View :=
  {| data := data v; page := page v; pageSize := n; records := records v;
     sortStatus := sortStatus v; debouncedQuery := debouncedQuery v;
     selectedStatuses := selectedStatuses v |}.

Definition set_records (r : list Contribution) (v : View) : View :=
  {| data := data v; page := page v; pageSize := pageSize v; records := r;
     sortStatus := sortStatus v; debouncedQuery := debouncedQuery v;
     selectedStatuses := selectedStatuses v |}.

Definition Contribution_eq_dec (x y : Contribution) : {x = y} + {x <> y}.
Proof. decide equality; auto using Z.eq_dec, string_dec. Defined.

Definition SortStatus_eq_dec (x y : DataTableSortStatus) : {x = y} + {x <> y}.
Proof. repeat decide equality. Defined.

Definition Contributions_eq_dec : forall x y : list Contribution, {x = y} + {x <> y} :=
  list_eq_dec Contribution_eq_dec.

Definition strings_eq_dec : forall x y : list string, {x = y} + {x <> y} :=
  list_eq_dec string_dec.

Definition View_eq_dec (x y : View) : {x = y} + {x <> y}.
Proof.
  decide equality;
    auto using Z.eq_dec, string_dec, SortStatus_eq_dec,
               Contributions_eq_dec, strings_eq_dec.
Defined.

Definition set_selectedStatuses (sel : list string) (v : View) : View :=
  {| data := data v; page := page v; pageSize := pageSize v; records := records v;
     sortStatus := sortStatus v; debouncedQuery := debouncedQuery v;
     selectedStatuses := sel |}.

(** Dependency list [[pageSize]] of the first effect. *)
Definition pageSize_dep_changed (prev : option View) (v : View) : bool :=
  match prev with
  | None => true
  | Some p => negb (pageSize p =? pageSize v)
  end.

(** Dependency list of the second effect:
    [[sortStatus, data, page, pageSize, debouncedQuery, selectedStatuses]]. *)
Definition records_deps_changed (prev : option View) (v : View) : bool :=
  match prev with
  | None => true
  | Some p =>
      negb (if SortStatus_eq_dec (sortStatus p) (sortStatus v) then true else false)
      || negb (if Contributions_eq_dec (data p) (data v) then true else false)
      || negb (page p =? page v)
      || negb (pageSize p =? pageSize v)
      || negb (debouncedQuery p =? debouncedQuery v)%string
      || negb (if strings_eq_dec (selectedStatuses p) (selectedStatuses v)
               then true else false)
  end.

(** Two renders agree on the dependencies of the second effect. *)
Definition same_deps (p v : View) : Prop :=
  sortStatus p = sortStatus v /\ data p = data v /\ page p = page v
  /\ pageSize p = pageSize v /\ debouncedQuery p = debouncedQuery v
  /\ selectedStatuses p = selectedStatuses v.

(** One commit: [prev] is the previously committed render ([None] on mount),
    [v] the render being committed; the result carries the queued updates. *)
Definition commit (prev : option View) (v : View) : View :=
  let v1 := if pageSize_dep_changed prev v then set_page 1 v else v in
  if records_deps_changed prev v then set_records (paginated v) v1 else v1.

(** Commits repeat until one leaves the state as it found it. *)
Fixpoint settle (fuel : nat) (prev : option View) (v : View) : option View :=
  match fuel with
  | O => None
  | S fuel' =>
      let v' := commit prev v in
      if View_eq_dec v' v then Some v else settle fuel' (Some v) v'
  end.

(** [onRecordsPerPageChange={setPageSize}]: setting the state to the value it
    already has does not render again. *)
Definition onRecordsPerPageChange (fuel : nat) (n : Z) (v : View) : option View :=
  if n =? pageSize v then Some v else settle fuel (Some v) (set_pageSize n v).

(** [onPageChange={(p) => setPage(p)}]. *)
Definition onPageChange (fuel : nat) (p : Z) (v : View) : option View :=
  if p =? page v then Some v else settle fuel (Some v) (set_page p v).

(** The status filter: [onChange={setSelectedStatuses}]. *)
Definition onSelectedStatusesChange (fuel : nat) (sel : list string) (v : View)
  : option View :=
  settle fuel (Some v) (set_selectedStatuses sel v).

(** The first render and its effects. *)
Definition mount (fuel : nat) (d : list Contribution) : option View :=
  settle fuel None (initial d).

(** *** BuscarDeudaButton *)

Record ButtonState := {
  progress : Z;
  running : bool;
  done : bool;
  (** whether the interval stored in [intervalRef] is still scheduled *)
  interval_active : bool
}.

Definition button_initial : ButtonState :=
  {| progress := 0; running := false; done := false; interval_active := false |}.

Definition INTERVAL_MS : Z := 100.
Definition INCREMENT : Z := 2.

(** The effect with dependency list [[running]]: the cleanup of the previous
    run clears the interval, then the body runs. *)
Definition running_effect (s : ButtonState) : ButtonState :=
  if running s
  then {| progress := 0; running := running s; done := false; interval_active := true |}
  else {| progress := progress s; running := running s; done := done s;
          interval_active := false |}.

(** A render after a state update; the effect runs when [running] changed. *)
Definition rerender (before after : ButtonState) : ButtonState :=
  if Bool.eqb (running before) (running after) then after else running_effect after.

Definition handleClick (s : ButtonState) : ButtonState :=
  {| progress := 0; running := true; done := false;
     interval_active := interval_active s |}.

(** The updater passed to [setProgress] inside the interval callback. *)
Definition interval_callback (s : ButtonState) : ButtonState :=
  if progress s >=? 100
  then {| progress := 100; running := false; done := true; interval_active := false |}
  else {| progress := progress s + INCREMENT; running := running s; done := done s;
          interval_active := interval_active s |}.

(** [disabled={running || done}] *)
Definition disabled (s : ButtonState) : bool := running s || done s.

Inductive ButtonEvent :=
| Click   (** the user clicks the button *)
| Tick.   (** [INTERVAL_MS] milliseconds have passed *)

(** A disabled button dispatches no click; an interval fires only while it is
    scheduled. *)
Definition button_step (s : ButtonState) (e : ButtonEvent) : ButtonState :=
  match e with
  | Click => if disabled s then s else rerender s (handleClick s)
  | Tick => if interval_active s then rerender s (interval_callback s) else s
  end.

Definition button_run (es : list ButtonEvent) : ButtonState :=
  fold_left button_step es button_initial.

(** The three shapes of the state the button can be in. *)
Definition button_inv (s : ButtonState) : Prop :=
  s = button_initial
  \/ (running s = true /\ done s = false /\ interval_active s = true
      /\ 0 <= progress s <= 100 /\ exists k, progress s = INCREMENT * k)
  \/ s = {| progress := 100; running := false; done := true; interval_active := false |}.

Inductive Phase := Idle | Running | Done.

Definition phase (s : ButtonState) : Phase :=
  if running s then Running else if done s then Done else Idle.

Definition phase_rank (p : Phase) : nat :=
  match p with Idle => 0 | Running => 1 | Done => 2 end.

End Contributions.

(** ** The product edit drawer *)

Module EditProductDrawer.

(** The values held by the form. *)
Record FormValues := {
  title : string;
  description : string;
  price : Z;
  quantityInStock : Z;
  sku : string;
  isActive : bool;
  status : Z;
  categoryId : string
}.

(** The fields of [IProduct] the drawer reads; a field may be missing. *)
Record IProduct := {
  id : string;
  createdById : option string;
  p_title : option string;
  p_description : option string;
  p_price : option Z;
  p_quantityInStock : option Z;
  p_sku : option string;
  p_isActive : option bool;
  p_status : option Z;
  p_categoryId : option string
}.

(** What [useAuth] returns: [user_id] stands for [user?.id]. *)
Record Auth := {
  user_id : option string;
  accessToken : string;
  permissions : option (list string)
}.

(** The props: the product, and whether each callback was supplied. *)
Record Props := {
  product : option IProduct;
  onProductUpdated : bool;
  onClose : bool
}.

Record State := {
  loading : bool;
  isCreator : bool;
  values : FormValues
}.

Definition initialValues : FormValues :=
  {| title := ""; description := ""; price := 0; quantityInStock := 0; sku := "";
     isActive := true; status := 1; categoryId := "" |}.

Definition initial : State :=
  {| loading := false; isCreator := false; values := initialValues |}.

(** [x || d] on a string that may be undefined: the empty string is falsy. *)
Definition or_string (x : option string) (d : string) : string :=
  match x with
  | Some (String c s) => String c s
  | _ => d
  end.

(** [x || d] on a number that may be undefined: zero is falsy. *)
Definition or_number (x : option Z) (d : Z) : Z :=
  match x with
  | Some n => if n =? 0 then d else n
  | None => d
  end.

Definition or_bool (x : option bool) (d : bool) : bool :=
  match x with
  | Some true => true
  | _ => d
  end.

(** [a === b] on identifiers that may be undefined. *)
Definition strict_eq (a b : option string) : bool :=
  match a, b with
  | Some x, Some y => (x =? y)%string
  | None, None => true
  | _, _ => false
  end.

(** [permissions?.includes('Permissions.Products.Edit')], as a condition. *)
Definition canEditProduct (a : Auth) : bool :=
  match permissions a with
  | Some ps => existsb (fun p => (p =? "Permissions.Products.Edit")%string) ps
  | None => false
  end.

(** The effect with dependency list [[product, user]]. *)
Definition product_effect (pr : Props) (a : Auth) (s : State) : State :=
  match product pr with
  | Some p =>
      {| loading := loading s;
         isCreator := strict_eq (user_id a) (createdById p);
         values :=
           {| title := or_string (p_title p) "";
              description := or_string (p_description p) "";
              price := or_number (p_price p) 0;
              quantityInStock := or_number (p_quantityInStock p) 0;
              sku := or_string (p_sku p) "";
              isActive := or_bool (p_isActive p) false;
              status := or_number (p_status p) 1;
              categoryId := or_string (p_categoryId p) "" |} |}
  | None => s
  end.

(** *** The outside world *)

Record Payload := { form : FormValues; modifiedById : option string }.

Inductive Method := PUT | DELETE.

Record Request := {
  url : string;
  method : Method;
  authorization : string;
  body : option Payload
}.

(** A thrown value is an [Error] with its message, or something else. *)
Inductive Thrown := ErrorObject (message : string) | NotAnError.

(** A parsed JSON body, as far as the handlers look into it, which is its
    [error] property only.
    - [JsonNull]: the body is [null]; reading a property of it throws a
      TypeError, whose message the engine chooses.
    - [JsonWith e]: any other value whose [error] property is a string
      ([Some]), or is missing or falsy ([None]): an object, but an array, a
      number, a string or a boolean as well.
    - [JsonWithOther m]: a value whose [error] property is truthy and not a
      string, [m] being the string that [new Error(data.error)] makes of it.
    - [JsonUnprintable]: a value whose [error] property is truthy and has no
      conversion to a string ([{"error": {"toString": null}}]); the
      conversion throws a TypeError, whose message the engine chooses. *)
Inductive Json :=
| JsonNull (type_error : string)
| JsonWith (error : option string)
| JsonWithOther (rendered : string)
| JsonUnprintable (type_error : string).

Record Response := {
  ok : bool;
  (** the result of [response.json()]: it rejects when the body does not parse *)
  json : Thrown + Json
}.

Inductive FetchOutcome :=
| Rejected (t : Thrown)     (** the transport failed *)
| Resolved (r : Response).

Record Notification := { n_title : string; n_message : string; n_color : string }.

Inductive Event :=
| EvConfirm (question : string) (answer : bool)
| EvFetch (r : Request)
| EvNotify (n : Notification)
| EvClose
| EvProductUpdated.

Record Env := {
  window_confirm : string -> bool;
  fetch : Request -> FetchOutcome
}.

(** *** Handlers as computations over the state and the event log *)

Record Store := { ui : State; log : list Event }.

Inductive Completion (A : Type) :=
| Normal (a : A)
| Throw (t : Thrown).

Arguments Normal {A} a.
Arguments Throw {A} t.

Definition M (A : Type) : Type := Env -> Store -> Completion A * Store.

Definition ret {A} (a : A) : M A := fun _ s => (Normal a, s).

Definition bind {A B} (m : M A) (k : A -> M B) : M B :=
  fun e s =>
    match m e s with
    | (Normal a, s') => k a e s'
    | (Throw t, s') => (Throw t, s')
    end.

Definition throw {A} (t : Thrown) : M A := fun _ s => (Throw t, s).

Definition try_catch {A} (m : M A) (handler : Thrown -> M A) : M A :=
  fun e s =>
    match m e s with
    | (Normal a, s') => (Normal a, s')
    | (Throw t, s') => handler t e s'
    end.

Definition finally {A} (m : M A) (f : M unit) : M A :=
  fun e s =>
    match m e s with
    | (c, s') =>
        match f e s' with
        | (Normal _, s'') => (c, s'')
        | (Throw t, s'') => (Throw t, s'')
        end
    end.

Notation "x <- m ;; k" := (bind m (fun x => k))
  (at level 61, m at next level, right associativity).
Notation "m ;; k" := (bind m (fun _ => k))
  (at level 61, right associativity).

Definition emit (ev : Event) : M unit :=
  fun _ s => (Normal tt, {| ui := ui s; log := log s ++ [ev] |}).

Definition setLoading (b : bool) : M unit :=
  fun _ s =>
    (Normal tt,
     {| ui := {| loading := b; isCreator := isCreator (ui s); values := values (ui s) |};
        log := log s |}).

Definition get_state : M State := fun _ s => (Normal (ui s), s).

Definition confirm (question : string) : M bool :=
  fun e s =>
    let answer := window_confirm e question in
    (Normal answer, {| ui := ui s; log := log s ++ [EvConfirm question answer] |}).

Definition do_fetch (r : Request) : M Response :=
  fun e s =>
    let s' := {| ui := ui s; log := log s ++ [EvFetch r] |} in
    match fetch e r with
    | Rejected t => (Throw t, s')
    | Resolved resp => (Normal resp, s')
    end.

Definition response_json (r : Response) : M Json :=
  match json r with
  | inl t => throw t
  | inr j => ret j
  end.

Definition notifications_show (n : Notification) : M unit := emit (EvNotify n).

Definition when (b : bool) (m : M unit) : M unit := if b then m else ret tt.

(** [error instanceof Error ? error.message : fallback] *)
Definition message_of (t : Thrown) (fallback : string) : string :=
  match t with
  | ErrorObject m => m
  | NotAnError => fallback
  end.

(** [throw new Error(data.error || fallback)]: the statement always throws
    an Error, the one it builds or the TypeError of a failed property read or
    conversion; this is its message. *)
Definition thrown_message (data : Json) (fallback : string) : string :=
  match data with
  | JsonNull type_error => type_error
  | JsonWith e => or_string e fallback
  | JsonWithOther rendered => rendered
  | JsonUnprintable type_error => type_error
  end.

Definition handleSubmit (pr : Props) (a : Auth) (vals : FormValues) : M unit :=
  st <- get_state ;;
  match product pr with
  | None => ret tt
  | Some p =>
      if negb (isCreator st) || negb (canEditProduct a) then ret tt
      else
        setLoading true ;;
        finally
          (try_catch
             (let payload := {| form := vals; modifiedById := user_id a |} in
              response <- do_fetch {| url := "/api/products/" ++ id p;
                                      method := PUT;
                                      authorization := "Bearer " ++ accessToken a;
                                      body := Some payload |} ;;
              data <- response_json response ;;
              if negb (ok response)
              then throw (ErrorObject (thrown_message data "Failed to update product"))
              else
                notifications_show {| n_title := "Success";
                                      n_message := "Product updated successfully";
                                      n_color := "green" |} ;;
                when (onClose pr) (emit EvClose) ;;
                when (onProductUpdated pr) (emit EvProductUpdated))
             (fun err =>
                notifications_show {| n_title := "Error";
                                      n_message := message_of err "Failed to update product";
                                      n_color := "red" |}))
          (setLoading false)
  end.

Definition handleDelete (pr : Props) (a : Auth) : M unit :=
  st <- get_state ;;
  match product pr with
  | None => ret tt
  | Some p =>
      if negb (isCreator st) then ret tt
      else
        confirmed <- confirm "Are you sure you want to delete this product?" ;;
        if negb confirmed then ret tt
        else
          setLoading true ;;
          finally
            (try_catch
               (response <- do_fetch {| url := "/api/products/" ++ id p;
                                        method := DELETE;
                                        authorization := "Bearer " ++ accessToken a;
                                        body := None |} ;;
                (if negb (ok response)
                 then
                   data <- response_json response ;;
                   throw (ErrorObject (thrown_message data "Failed to delete product"))
                 else ret tt) ;;
                notifications_show {| n_title := "Success";
                                      n_message := "Product deleted successfully";
                                      n_color := "green" |} ;;
                when (onClose pr) (emit EvClose) ;;
                when (onProductUpdated pr) (emit EvProductUpdated))
               (fun err =>
                  notifications_show {| n_title := "Error";
                                        n_message := message_of err "Failed to delete product";
                                        n_color := "red" |}))
            (setLoading false)
  end.

(** The state once [setLoading(false)] has run. *)
Definition not_loading (s : State) : State :=
  {| loading := false; isCreator := isCreator s; values := values s |}.

Definition delete_question : string := "Are you sure you want to delete this product?".

(** Running a handler from a state with an empty log. *)
Definition run (m : M unit) (e : Env) (s : State) : State * list Event :=
  let '(_, st) := m e {| ui := s; log := [] |} in (ui st, log st).

Definition is_fetch (ev : Event) : bool :=
  match ev with EvFetch _ => true | _ => false end.

Definition is_close (ev : Event) : bool :=
  match ev with EvClose => true | _ => false end.

Definition is_refresh (ev : Event) : bool :=
  match ev with EvProductUpdated => true | _ => false end.

Definition is_notify (ev : Event) : bool :=
  match ev with EvNotify _ => true | _ => false end.

Definition count (f : Event -> bool) (l : list Event) : nat :=
  List.length (filter f l).

End EditProductDrawer.

(** ** The specification's vocabulary

    The definitions of this module follow the words of the specification, to
    be compared with the definitions above, which follow the code. *)

Module Spec.

Import Contributions.

(** Substring containment. *)
Definition contains (s sub : string) : Prop :=
  exists pre post : string, s = (pre ++ sub ++ post)%string.

(** The free-text query is empty, or the name, lowercased, contains the
    trimmed lowercased query. *)
Definition passes_text (query : string) (r : Contribution) : Prop :=
  query = "" \/ contains (JS.toLowerCase (name r)) (JS.toLowerCase (JS.trim query)).

(** The selected-status set is empty, or the status is a member of it. *)
Definition passes_status (selected : list string) (r : Contribution) : Prop :=
  selected = [] \/ In (status r) selected.

Definition kept (v : View) (r : Contribution) : Prop :=
  passes_text (debouncedQuery v) r /\ passes_status (selectedStatuses v) r.

(** The same condition as a test. *)
Definition keepb (v : View) (r : Contribution) : bool :=
  ((debouncedQuery v =? "")%string
   || JS.includes (JS.toLowerCase (name r)) (JS.toLowerCase (JS.trim (debouncedQuery v))))
  && (match selectedStatuses v with [] => true | _ => false end
      || existsb (fun s => (s =? status r)%string) (selectedStatuses v)).

(** The order of the sort key. *)
Definition key_le (acc : ColumnAccessor) (x y : Contribution) : Prop :=
  match acc with
  | acc_name => String.leb (name x) (name y) = true
  | acc_propertiesCount => propertiesCount x <= propertiesCount y
  end.

(** Two records are tied on the sort key. *)
Definition same_key (acc : ColumnAccessor) (x y : Contribution) : bool :=
  match acc with
  | acc_name => (name x =? name y)%string
  | acc_propertiesCount => propertiesCount x =? propertiesCount y
  end.

(** The records of [l] tied with [x], in their order in [l]. *)
Definition ties_of (acc : ColumnAccessor) (x : Contribution) (l : list Contribution)
  : list Contribution :=
  filter (same_key acc x) l.

(** [s] is a stable ascending sort of [l]: the same records, in ascending key
    order, tied records in their order in [l]. *)
Definition StableSortAsc (acc : ColumnAccessor) (l s : list Contribution) : Prop :=
  Permutation l s
  /\ Sorted (key_le acc) s
  /\ forall x, ties_of acc x s = ties_of acc x l.

(** [s] is a stable descending sort of [l]. *)
Definition StableSortDesc (acc : ColumnAccessor) (l s : list Contribution) : Prop :=
  Permutation l s
  /\ Sorted (fun x y => key_le acc y x) s
  /\ forall x, ties_of acc x s = ties_of acc x l.

(** No two records of the list are tied on the key. *)
Definition no_ties (acc : ColumnAccessor) (l : list Contribution) : Prop :=
  forall i j x y,
    nth_error l i = Some x -> nth_error l j = Some y -> i <> j ->
    same_key acc x y = false.

(** The elements of [l] whose index lies in [[lo, hi)], the first index being
    [i]. *)
Fixpoint index_range_from {A : Type} (i lo hi : Z) (l : list A) : list A :=
  match l with
  | [] => []
  | x :: l' =>
      if (lo <=? i) && (i <? hi)
      then x :: index_range_from (i + 1) lo hi l'
      else index_range_from (i + 1) lo hi l'
  end.

Definition index_range {A : Type} (lo hi : Z) (l : list A) : list A :=
  index_range_from 0 lo hi l.

(** The number of records that satisfy the active filters. *)
Definition totalMatching (v : View) : Z :=
  Z.of_nat (List.length (filter (keepb v) (data v))).

End Spec.

(** The vocabulary of the specification for the edit drawer. *)

Module DrawerSpec.

Import EditProductDrawer.

(** The request a submit of [vals] for product [p] sends. *)
Definition update_request (a : Auth) (p : IProduct) (vals : FormValues) : Request :=
  {| url := "/api/products/" ++ id p;
     method := PUT;
     authorization := "Bearer " ++ accessToken a;
     body := Some {| form := vals; modifiedById := user_id a |} |}.

(** The request a delete of product [p] sends. *)
Definition delete_request (a : Auth) (p : IProduct) : Request :=
  {| url := "/api/products/" ++ id p;
     method := DELETE;
     authorization := "Bearer " ++ accessToken a;
     body := None |}.

(** The submission fails: a transport error, or a response that is not 2xx. *)
Definition failed (o : FetchOutcome) : Prop :=
  match o with
  | Rejected _ => True
  | Resolved r => ok r = false
  end.

(** The error message the server provides, when the response body contains
    one: a non-empty string, or another truthy value as [new Error] renders
    it. *)
Definition server_message (o : FetchOutcome) : option string :=
  match o with
  | Resolved r =>
      match json r with
      | inr (JsonWith (Some (String c m))) => Some (String c m)
      | inr (JsonWithOther m) => Some m
      | _ => None
      end
  | Rejected _ => None
  end.

Definition generic_update_message : string := "Failed to update product".

(** The message as the claim states it: the server's when present, the
    generic one otherwise. *)
Definition stated_message (o : FetchOutcome) : string :=
  match server_message o with
  | Some m => m
  | None => generic_update_message
  end.

(** The message as amended: an [Error] thrown by the request, by the reading
    of the body, by the reading of [error] from a [null] body or by the
    conversion of [error] to a string carries its own message. *)
Definition amended_message (o : FetchOutcome) : string :=
  match o with
  | Rejected (ErrorObject m) => m
  | Rejected NotAnError => generic_update_message
  | Resolved r =>
      match json r with
      | inl (ErrorObject m) => m
      | inl NotAnError => generic_update_message
      | inr (JsonNull m) => m
      | inr (JsonUnprintable m) => m
      | inr (JsonWith _) => stated_message o
      | inr (JsonWithOther _) => stated_message o
      end
  end.

(** Something is thrown before the handler has a message of its own. *)
Definition throws_error (o : FetchOutcome) : Prop :=
  match o with
  | Rejected _ => True
  | Resolved r =>
      match json r with
      | inl _ => True
      | inr (JsonNull _) => True
      | inr (JsonUnprintable _) => True
      | inr _ => False
      end
  end.

Definition error_notification (m : string) : Event :=
  EvNotify {| n_title := "Error"; n_message := m; n_color := "red" |}.

End DrawerSpec.

(** ** More of ContributionsTable.tsx: the filter options and the controls *)

Module TableControls.

Import Contributions.

(** [Set.prototype.add]: a set keeps its values in insertion order and
    ignores a value it already holds. *)
Definition Set_add (s : list string) (x : string) : list string :=
  if existsb (String.eqb x) s then s else (s ++ [x])%list.

(** [new Set(iterable)], read back with [Array.from]. *)
Definition new_Set (xs : list string) : list string := fold_left Set_add xs [].

(** The [statuses] memo: [Array.from(new Set(data.map((e) => e.status)))]. *)
Definition statuses (d : list Contribution) : list string :=
  new_Set (map status d).

Definition set_sortStatus (ss : DataTableSortStatus) (v : View) : View :=
  {| data := data v; page := page v; pageSize := pageSize v; records := records v;
     sortStatus := ss; debouncedQuery := debouncedQuery v;
     selectedStatuses := selectedStatuses v |}.

Definition set_debouncedQuery (q : string) (v : View) : View :=
  {| data := data v; page := page v; pageSize := pageSize v; records := records v;
     sortStatus := sortStatus v; debouncedQuery := q;
     selectedStatuses := selectedStatuses v |}.

Definition set_data (d : list Contribution) (v : View) : View :=
  {| data := d; page := page v; pageSize := pageSize v; records := records v;
     sortStatus := sortStatus v; debouncedQuery := debouncedQuery v;
     selectedStatuses := selectedStatuses v |}.

(** [onSortStatusChange={setSortStatus}]. *)
Definition onSortStatusChange (fuel : nat) (ss : DataTableSortStatus) (v : View)
  : option View :=
  settle fuel (Some v) (set_sortStatus ss v).

(** The debounced query takes the value of the text input. *)
Definition onDebouncedQuery (fuel : nat) (q : string) (v : View) : option View :=
  settle fuel (Some v) (set_debouncedQuery q v).

(** The pages [1 .. n] of a view, one after the other. *)
Definition pages (n : nat) (v : View) : list (list Contribution) :=
  map (fun k => paginated (set_page (Z.of_nat k) v)) (seq 1 n).

(** The button of the progress display. *)
Inductive ButtonText :=
| BuscarDeuda
| ProgressValue (p : Z)
| DeudaCalculada.

Definition buttonText (s : ButtonState) : ButtonText :=
  if running s then ProgressValue (progress s)
  else if done s then DeudaCalculada
  else BuscarDeuda.

Definition is_tick (e : ButtonEvent) : bool :=
  match e with Tick => true | Click => false end.

(** The number of ticks that follow the first click, if there is a click. *)
Fixpoint ticks_after_click (es : list ButtonEvent) : option nat :=
  match es with
  | [] => None
  | Click :: es' => Some (List.length (filter is_tick es'))
  | Tick :: es' => ticks_after_click es'
  end.

Definition running_at (k : Z) : ButtonState :=
  {| progress := INCREMENT * k; running := true; done := false;
     interval_active := true |}.

Definition button_done : ButtonState :=
  {| progress := 100; running := false; done := true; interval_active := false |}.

End TableControls.

(** ** ProductsCard.tsx *)

Module ProductsCard.

Import EditProductDrawer.

Record Category := { category_title : option string }.

(** The card's [data]: the product fields the drawer reads, and the two
    fields only the card reads. *)
Record Data := {
  base : IProduct;
  categoryName : option string;
  category : option Category
}.

(** [user?.id === data.createdById] *)
Definition isCreator (user : option string) (d : Data) : bool :=
  strict_eq user (createdById (base d)).

(** [data.isActive ? 'green' : 'red'] and [data.isActive ? 'Active' : 'Inactive'] *)
Definition badge (d : Data) : string * string :=
  match p_isActive (base d) with
  | Some true => ("green", "Active")
  | _ => ("red", "Inactive")
  end.

(** [data.category && data.category.title] *)
Definition category_and_title (d : Data) : option string :=
  match category d with
  | Some c => category_title c
  | None => None
  end.

(** [data.categoryName || (data.category && data.category.title) || 'Uncategorized'] *)
Definition category_text (d : Data) : string :=
  match categoryName d with
  | Some (String c s) => String c s
  | _ => or_string (category_and_title d) "Uncategorized"
  end.

(** [data.sku || 'N/A'] *)
Definition sku_text (d : Data) : string := or_string (p_sku (base d)) "N/A".

(** [disabled={!isCreator}] *)
Definition edit_disabled (user : option string) (d : Data) : bool :=
  negb (isCreator user d).

Definition edit_title (user : option string) (d : Data) : string :=
  if isCreator user d then "Edit product" else "Only the creator can edit this product".

Inductive CardEvent := EvEdit (d : Data).

(** A click on the Edit button: a disabled button dispatches nothing;
    otherwise [onEdit && onEdit(data)]. *)
Definition click_edit (user : option string) (onEdit : bool) (d : Data)
  : list CardEvent :=
  if edit_disabled user d then []
  else if onEdit then [EvEdit d] else [].

End ProductsCard.

(** ** Notifications and callbacks of the edit drawer *)

Module DrawerEvents.

Import EditProductDrawer.

Definition success_update : Event :=
  EvNotify {| n_title := "Success"; n_message := "Product updated successfully";
              n_color := "green" |}.

Definition success_delete : Event :=
  EvNotify {| n_title := "Success"; n_message := "Product deleted successfully";
              n_color := "green" |}.

(** The callbacks that run after a success, in the order of the code:
    [onClose] first, [onProductUpdated] second, each if it was supplied. *)
Definition callbacks (pr : Props) : list Event :=
  ((if onClose pr then [EvClose] else [])
   ++ (if onProductUpdated pr then [EvProductUpdated] else []))%list.

(** What the [catch] block of [handleDelete] shows for a failed outcome. *)
Definition delete_error_message (o : FetchOutcome) : string :=
  match o with
  | Rejected t => message_of t "Failed to delete product"
  | Resolved r =>
      match json r with
      | inl t => message_of t "Failed to delete product"
      | inr j => thrown_message j "Failed to delete product"
      end
  end.

End DrawerEvents.

(** ** The category options of the edit drawer *)

Module Categories.

Import EditProductDrawer.


Record SelectOption := { value : string; label : string }.




Record CState := {
  categories : list SelectOption;
  categoriesLoading : bool
}.

Definition c_initial : CState := {| categories := []; categoriesLoading := false |}.







End Categories.

(** * Properties *)

(** ** The stable insertion sort *)

Section SortByFacts.

Variables A K : Type.
Variable key : A -> K.
Variable leb : K -> K -> bool.

Hypothesis leb_total : forall a b, leb a b = true \/ leb b a = true.
Hypothesis leb_trans : forall a b c, leb a b = true -> leb b c = true -> leb a c = true.
Hypothesis leb_antisym : forall a b, leb a b = true -> leb b a = true -> a = b.

Let le (x y : A) : Prop := leb (key x) (key y) = true.

Lemma leb_refl a : leb a a = true.
Proof. destruct (leb_total a a); assumption. Qed.

Lemma tied_iff k1 k2 : tied leb k1 k2 = true <-> k1 = k2.
Proof.
  unfold tied. rewrite andb_true_iff. split.
  - intros [H1 H2]. now apply leb_antisym.
  - intros ->. split; apply leb_refl.
Qed.

Lemma insert_perm x l : Permutation (x :: l) (insert key leb x l).
Proof.
  induction l as [|y l IH]; simpl.
  - apply Permutation_refl.
  - destruct (leb (key x) (key y)).
    + apply Permutation_refl.
    + eapply perm_trans; [apply perm_swap|]. now apply perm_skip.
Qed.

Lemma sort_by_perm l : Permutation l (sort_by key leb l).
Proof.
  induction l as [|x l IH]; simpl.
  - constructor.
  - eapply perm_trans; [apply perm_skip, IH|]. apply insert_perm.
Qed.

Lemma insert_sorted x l :
  StronglySorted le l -> StronglySorted le (insert key leb x l).
Proof.
  induction 1 as [|y l Hs IH Hy]; simpl.
  - constructor; constructor.
  - destruct (leb (key x) (key y)) eqn:E.
    + constructor.
      * now constructor.
      * constructor; [exact E|].
        rewrite Forall_forall in *. intros z Hz.
        unfold le. eapply leb_trans; [exact E|]. now apply Hy.
    + constructor; [exact IH|].
      assert (Hyx : leb (key y) (key x) = true)
        by (destruct (leb_total (key x) (key y)); congruence).
      eapply Permutation_Forall; [apply insert_perm|].
      now constructor.
Qed.

Lemma sort_by_sorted l : StronglySorted le (sort_by key leb l).
Proof.
  induction l as [|x l IH]; simpl.
  - constructor.
  - now apply insert_sorted.
Qed.

(** Insertion puts [x] in front of the records it is tied with. *)
Lemma key_class_insert k x l :
  key_class key leb k (insert key leb x l) =
  if tied leb (key x) k then x :: key_class key leb k l else key_class key leb k l.
Proof.
  induction l as [|y l IH]; simpl.
  - reflexivity.
  - destruct (leb (key x) (key y)) eqn:E; simpl.
    + reflexivity.
    + rewrite IH.
      destruct (tied leb (key x) k) eqn:Tx, (tied leb (key y) k) eqn:Ty;
        try reflexivity.
      apply tied_iff in Tx, Ty. rewrite Tx, Ty, leb_refl in E. discriminate.
Qed.

Lemma sort_by_stable k l :
  key_class key leb k (sort_by key leb l) = key_class key leb k l.
Proof.
  induction l as [|x l IH]; simpl.
  - reflexivity.
  - rewrite key_class_insert, IH. reflexivity.
Qed.

Lemma key_class_rev k l :
  key_class key leb k (rev l) = rev (key_class key leb k l).
Proof.
  unfold key_class. induction l as [|x l IH]; simpl.
  - reflexivity.
  - rewrite filter_app, IH. simpl.
    destruct (tied leb (key x) k); simpl.
    + reflexivity.
    + now rewrite app_nil_r.
Qed.

(** A sorted list is determined by its classes of tied records. *)
Lemma sorted_classes_unique s1 :
  forall s2,
    StronglySorted le s1 -> StronglySorted le s2 ->
    (forall k, key_class key leb k s1 = key_class key leb k s2) ->
    s1 = s2.
Proof.
  induction s1 as [|x s1 IH]; intros s2 H1 H2 Hc.
  - destruct s2 as [|y s2]; [reflexivity|].
    specialize (Hc (key y)). simpl in Hc.
    assert (T : tied leb (key y) (key y) = true) by now apply tied_iff.
    rewrite T in Hc. discriminate.
  - destruct s2 as [|y s2].
    + specialize (Hc (key x)). simpl in Hc.
      assert (T : tied leb (key x) (key x) = true) by now apply tied_iff.
      rewrite T in Hc. discriminate.
    + inversion H1 as [|? ? Hs1 Hx]; subst.
      inversion H2 as [|? ? Hs2 Hy]; subst.
      assert (Tx : tied leb (key x) (key x) = true) by now apply tied_iff.
      assert (Ty : tied leb (key y) (key y) = true) by now apply tied_iff.
      assert (Hxy : le y x).
      { pose proof (Hc (key x)) as C. simpl in C. rewrite Tx in C.
        destruct (tied leb (key y) (key x)) eqn:T.
        - apply tied_iff in T. unfold le. rewrite T. apply leb_refl.
        - assert (I : In x (key_class key leb (key x) s2))
            by (rewrite <- C; now left).
          apply filter_In in I. destruct I as [I _].
          rewrite Forall_forall in Hy. now apply Hy. }
      assert (Hyx : le x y).
      { pose proof (Hc (key y)) as C. simpl in C. rewrite Ty in C.
        destruct (tied leb (key x) (key y)) eqn:T.
        - apply tied_iff in T. unfold le. rewrite T. apply leb_refl.
        - assert (I : In y (key_class key leb (key y) s1))
            by (rewrite C; now left).
          apply filter_In in I. destruct I as [I _].
          rewrite Forall_forall in Hx. now apply Hx. }
      assert (E : key x = key y) by now apply leb_antisym.
      assert (x = y).
      { pose proof (Hc (key x)) as C. simpl in C. rewrite Tx in C.
        rewrite <- E, Tx in C. congruence. }
      subst y. f_equal. apply IH; try assumption.
      intro k. specialize (Hc k). simpl in Hc.
      destruct (tied leb (key x) k); congruence.
Qed.

(** Without ties every class has at most one record. *)
Lemma key_class_NoDup_keys k l :
  NoDup (map key l) -> (List.length (key_class key leb k l) <= 1)%nat.
Proof.
  induction l as [|x l IH]; simpl; intros Hn.
  - lia.
  - inversion Hn as [|? ? Hx Hl]; subst.
    specialize (IH Hl).
    destruct (tied leb (key x) k) eqn:T; simpl; [|lia].
    apply tied_iff in T. subst k.
    destruct (key_class key leb (key x) l) as [|y c] eqn:C; simpl; [lia|].
    exfalso. apply Hx.
    assert (I : In y (key_class key leb (key x) l)) by (rewrite C; now left).
    apply filter_In in I. destruct I as [I T]. apply tied_iff in T.
    rewrite <- T. now apply in_map.
Qed.

Lemma short_classes_NoDup_keys l :
  (forall k, (List.length (key_class key leb k l) <= 1)%nat) -> NoDup (map key l).
Proof.
  induction l as [|x l IH]; simpl; intros Hc.
  - constructor.
  - assert (Tx : tied leb (key x) (key x) = true) by now apply tied_iff.
    constructor.
    + intro I. apply in_map_iff in I. destruct I as [y [E I]].
      specialize (Hc (key x)). rewrite Tx in Hc. simpl in Hc.
      assert (I' : In y (key_class key leb (key x) l)).
      { apply filter_In. split; [exact I|]. now apply tied_iff. }
      destruct (key_class key leb (key x) l); [destruct I'|simpl in Hc; lia].
    + apply IH. intro k. specialize (Hc k).
      destruct (tied leb (key x) k); simpl in Hc; lia.
Qed.

End SortByFacts.

(** A list without repetition that reads the same in both directions has at
    most one element. *)
Lemma NoDup_rev_eq_short {A : Type} (l : list A) :
  NoDup l -> rev l = l -> (List.length l <= 1)%nat.
Proof.
  intros Hn Hr. destruct l as [|x [|y l]]; simpl; try lia.
  exfalso. inversion Hn as [|? ? Hx _]; subst. apply Hx.
  simpl in Hr.
  assert (I : In x ((rev l ++ [y]) ++ [x])) by (apply in_or_app; right; now left).
  rewrite Hr in I. destruct I as [I|I]; [|exact I].
  exfalso.
  assert (L : last ((rev l ++ [y]) ++ [x]) x = last (x :: y :: l) x) by now rewrite Hr.
  rewrite last_last in L.
  assert (I2 : In (last (y :: l) x) (y :: l)).
  { clear. generalize y. induction l as [|z l IH]; intro y0; simpl.
    - now left.
    - right. apply IH. }
  change (last (x :: y :: l) x) with (last (y :: l) x) in L.
  rewrite <- L in I2. now apply Hx.
Qed.

Lemma StronglySorted_rev {A : Type} (R : A -> A -> Prop) (l : list A) :
  StronglySorted R l -> StronglySorted (fun x y => R y x) (rev l).
Proof.
  induction 1 as [|x l Hs IH Hx]; simpl.
  - constructor.
  - clear Hs. revert IH. generalize (rev_involutive l).
    assert (Hx' : Forall (fun y => R x y) (rev l))
      by (rewrite Forall_forall in *; intros y Hy; apply Hx; now apply in_rev).
    clear Hx. generalize dependent (rev l). intros r Hr _ IH.
    induction IH as [|z r Hs IHr Hz]; simpl.
    + constructor; constructor.
    + inversion Hr; subst. constructor.
      * now apply IHr.
      * apply Forall_app. split; [exact Hz|]. now constructor.
Qed.

(** ** Strings *)

Lemma ascii_compare_refl (c : ascii) : Ascii.compare c c = Eq.
Proof. unfold Ascii.compare. apply N.compare_refl. Qed.

Lemma ascii_compare_lt_trans (a b c : ascii) :
  Ascii.compare a b = Lt -> Ascii.compare b c = Lt -> Ascii.compare a c = Lt.
Proof.
  unfold Ascii.compare. rewrite !N.compare_lt_iff. apply N.lt_trans.
Qed.

Lemma string_compare_lt_trans (s1 : string) :
  forall s2 s3,
    String.compare s1 s2 = Lt -> String.compare s2 s3 = Lt -> String.compare s1 s3 = Lt.
Proof.
  induction s1 as [|a s1 IH]; intros [|b s2] [|c s3]; simpl; try congruence.
  destruct (Ascii.compare a b) eqn:Eab; try discriminate;
    destruct (Ascii.compare b c) eqn:Ebc; try discriminate; intros H12 H23.
  - apply Ascii.compare_eq_iff in Eab, Ebc. subst.
    rewrite ascii_compare_refl. now apply (IH s2).
  - apply Ascii.compare_eq_iff in Eab. subst. now rewrite Ebc.
  - apply Ascii.compare_eq_iff in Ebc. subst. now rewrite Eab.
  - now rewrite (ascii_compare_lt_trans a b c).
Qed.

Lemma string_leb_trans (s1 s2 s3 : string) :
  String.leb s1 s2 = true -> String.leb s2 s3 = true -> String.leb s1 s3 = true.
Proof.
  unfold String.leb.
  destruct (String.compare s1 s2) eqn:E12; try discriminate;
    destruct (String.compare s2 s3) eqn:E23; try discriminate; intros _ _.
  - apply String.compare_eq_iff in E12. subst s2. now rewrite E23.
  - apply String.compare_eq_iff in E12. subst s2. now rewrite E23.
  - apply String.compare_eq_iff in E23. subst s3. now rewrite E12.
  - now rewrite (string_compare_lt_trans s1 s2 s3).
Qed.

Lemma prefix_app (sub s : string) :
  prefix sub s = true <-> exists post, s = (sub ++ post)%string.
Proof.
  revert s. induction sub as [|c sub IH]; intros s.
  - split; [intros _; now exists s | intros _; now destruct s].
  - destruct s as [|d s]; simpl.
    + split; [discriminate | intros [post H]; discriminate].
    + destruct (ascii_dec c d) as [->|N].
      * rewrite IH. split; intros [post H]; exists post; simpl in *; congruence.
      * split; [discriminate | intros [post H]; simpl in H; congruence].
Qed.

(** [includes] decides substring containment. *)
Lemma includes_contains (s sub : string) :
  JS.includes s sub = true <-> Spec.contains s sub.
Proof.
  unfold Spec.contains. induction s as [|c s IH]; cbn [JS.includes].
  - rewrite orb_false_r, prefix_app. split.
    + intros [post H]. now exists "", post.
    + intros [[|d pre] [post H]]; simpl in H; [now exists post | discriminate].
  - rewrite orb_true_iff, prefix_app, IH. split.
    + intros [[post H] | [pre [post H]]].
      * now exists "", post.
      * exists (String c pre), post. simpl. now rewrite H.
    + intros [[|d pre] [post H]]; simpl in H.
      * left. now exists post.
      * right. exists pre, post. congruence.
Qed.

Lemma truthy_string_empty (s : string) :
  JS.truthy_string s = negb (s =? "")%string.
Proof. now destruct s. Qed.

(** ** Slicing *)

Lemma index_range_from_inside {A : Type} (l : list A) :
  forall i lo hi, lo <= i ->
    Spec.index_range_from i lo hi l = firstn (Z.to_nat (hi - i)) l.
Proof.
  induction l as [|x l IH]; intros i lo hi Hi; simpl.
  - now rewrite firstn_nil.
  - destruct (Z.leb_spec lo i); [|lia].
    destruct (Z.ltb_spec i hi); simpl.
    + rewrite IH by lia.
      replace (Z.to_nat (hi - i)) with (S (Z.to_nat (hi - (i + 1)))) by lia.
      reflexivity.
    + rewrite IH by lia.
      replace (Z.to_nat (hi - i)) with O by lia.
      replace (Z.to_nat (hi - (i + 1))) with O by lia.
      reflexivity.
Qed.

Lemma index_range_from_before {A : Type} (l : list A) :
  forall i lo hi, i <= lo ->
    Spec.index_range_from i lo hi l =
    firstn (Z.to_nat (hi - lo)) (skipn (Z.to_nat (lo - i)) l).
Proof.
  induction l as [|x l IH]; intros i lo hi Hi; simpl.
  - now rewrite skipn_nil, firstn_nil.
  - destruct (Z.leb_spec lo i); simpl.
    + assert (lo = i) by lia. subst lo.
      replace (Z.to_nat (i - i)) with O by lia. simpl.
      destruct (Z.ltb_spec i hi).
      * rewrite index_range_from_inside by lia.
        replace (Z.to_nat (hi - i)) with (S (Z.to_nat (hi - (i + 1)))) by lia.
        reflexivity.
      * rewrite index_range_from_inside by lia.
        replace (Z.to_nat (hi - i)) with O by lia.
        replace (Z.to_nat (hi - (i + 1))) with O by lia.
        reflexivity.
    + rewrite IH by lia.
      replace (Z.to_nat (lo - i)) with (S (Z.to_nat (lo - (i + 1)))) by lia.
      reflexivity.
Qed.

(** With bounds that are not negative, [slice] takes the index range. *)
Lemma slice_index_range {A : Type} (l : list A) (lo hi : Z) :
  0 <= lo -> 0 <= hi -> JS.slice l lo hi = Spec.index_range lo hi l.
Proof.
  intros Hlo Hhi. unfold Spec.index_range, JS.slice.
  rewrite index_range_from_before by lia.
  destruct (Z.ltb_spec lo 0); [lia|]. destruct (Z.ltb_spec hi 0); [lia|].
  rewrite Z.sub_0_r.
  destruct (Z_lt_le_dec lo (Z.of_nat (List.length l))) as [L|L].
  - rewrite (Z.min_l lo) by lia.
    destruct (Z_lt_le_dec hi (Z.of_nat (List.length l))) as [H'|H'].
    + now rewrite Z.min_l by lia.
    + rewrite Z.min_r by lia.
      rewrite !firstn_all2; try reflexivity; rewrite length_skipn; lia.
  - rewrite (Z.min_r lo) by lia.
    rewrite !skipn_all2 by lia. now rewrite !firstn_nil.
Qed.

Lemma slice_length {A : Type} (l : list A) (start n : Z) :
  0 <= n -> Z.of_nat (List.length (JS.slice l start (start + n))) <= n.
Proof.
  intros Hn. unfold JS.slice. rewrite length_firstn, length_skipn.
  destruct (Z.ltb_spec start 0), (Z.ltb_spec (start + n) 0); lia.
Qed.

Lemma slice_incl {A : Type} (l : list A) (start end_ : Z) (x : A) :
  In x (JS.slice l start end_) -> In x l.
Proof.
  unfold JS.slice. intros H.
  rewrite <- (firstn_skipn (Z.to_nat
    (if start <? 0 then Z.max (Z.of_nat (List.length l) + start) 0
     else Z.min start (Z.of_nat (List.length l)))) l).
  apply in_or_app. right.
  match type of H with In _ (firstn ?n ?t) => rewrite <- (firstn_skipn n t) end.
  apply in_or_app. now left.
Qed.

(** ** The sort of the table *)

Lemma Zleb_total (a b : Z) : (a <=? b) = true \/ (b <=? a) = true.
Proof. rewrite !Z.leb_le. lia. Qed.

Lemma Zleb_trans (a b c : Z) : (a <=? b) = true -> (b <=? c) = true -> (a <=? c) = true.
Proof. rewrite !Z.leb_le. lia. Qed.

Lemma Zleb_antisym (a b : Z) : (a <=? b) = true -> (b <=? a) = true -> a = b.
Proof. rewrite !Z.leb_le. lia. Qed.

Lemma StronglySorted_impl {A : Type} (R R' : A -> A -> Prop) (l : list A) :
  (forall x y, R x y -> R' x y) -> StronglySorted R l -> StronglySorted R' l.
Proof.
  intros HR. induction 1 as [|x l Hs IH Hx]; constructor.
  - exact IH.
  - eapply Forall_impl; [|exact Hx]. intros y. apply HR.
Qed.

Section TableSort.

Import Contributions.

Lemma ties_of_name x l :
  Spec.ties_of acc_name x l = key_class name String.leb (name x) l.
Proof.
  apply filter_ext. intro y. simpl.
  destruct (String.eqb_spec (name x) (name y)) as [E|N]; symmetry.
  - apply (tied_iff _ String.leb String.leb_total String.leb_antisym). congruence.
  - apply not_true_is_false. intro T. apply N. symmetry.
    now apply (tied_iff _ String.leb String.leb_total String.leb_antisym).
Qed.

Lemma ties_of_propertiesCount x l :
  Spec.ties_of acc_propertiesCount x l =
  key_class propertiesCount Z.leb (propertiesCount x) l.
Proof.
  apply filter_ext. intro y. simpl.
  destruct (Z.eqb_spec (propertiesCount x) (propertiesCount y)) as [E|N]; symmetry.
  - apply (tied_iff _ Z.leb Zleb_total Zleb_antisym). congruence.
  - apply not_true_is_false. intro T. apply N. symmetry.
    now apply (tied_iff _ Z.leb Zleb_total Zleb_antisym).
Qed.

Lemma key_le_trans acc : Relations_1.Transitive (Spec.key_le acc).
Proof.
  intros x y z. destruct acc; simpl.
  - apply string_leb_trans.
  - lia.
Qed.

Lemma key_ge_trans acc : Relations_1.Transitive (fun x y => Spec.key_le acc y x).
Proof.
  intros x y z H1 H2. exact (key_le_trans acc z y x H2 H1).
Qed.

(** [sortBy] is a stable ascending sort. *)
Lemma sortBy_StableSortAsc acc l : Spec.StableSortAsc acc l (sortBy l acc).
Proof.
  destruct acc; simpl; repeat split.
  - apply sort_by_perm.
  - apply StronglySorted_Sorted.
    apply (sort_by_sorted _ _ name _ String.leb_total string_leb_trans).
  - intro x. rewrite !ties_of_name.
    apply (sort_by_stable _ _ name _ String.leb_total String.leb_antisym).
  - apply sort_by_perm.
  - apply StronglySorted_Sorted.
    eapply StronglySorted_impl;
      [|apply (sort_by_sorted _ _ propertiesCount _ Zleb_total Zleb_trans)].
    intros x y. simpl. apply Z.leb_le.
  - intro x. rewrite !ties_of_propertiesCount.
    apply (sort_by_stable _ _ propertiesCount _ Zleb_total Zleb_antisym).
Qed.

(** Tied records keep their classes under reversal, reversed. *)
Lemma ties_of_rev acc x l : Spec.ties_of acc x (rev l) = rev (Spec.ties_of acc x l).
Proof.
  unfold Spec.ties_of. induction l as [|y l IH]; simpl.
  - reflexivity.
  - rewrite filter_app, IH. simpl.
    destruct (Spec.same_key acc x y); simpl; [reflexivity | now rewrite app_nil_r].
Qed.

(** Ascending lists with the same classes of tied records are equal. *)
Lemma ascending_unique acc s1 s2 :
  Sorted (Spec.key_le acc) s1 -> Sorted (Spec.key_le acc) s2 ->
  (forall x, Spec.ties_of acc x s1 = Spec.ties_of acc x s2) ->
  s1 = s2.
Proof.
  intros H1 H2 Hc.
  apply Sorted_StronglySorted in H1; [|apply key_le_trans].
  apply Sorted_StronglySorted in H2; [|apply key_le_trans].
  assert (In1 : forall (k : Contribution -> bool) (s : list Contribution),
             (exists y, In y s /\ k y = true) \/ filter k s = []).
  { intros k s. induction s as [|y s IH]; [now right|]. simpl.
    destruct (k y) eqn:E; [left; exists y; split; [now left|exact E]|].
    destruct IH as [[z [I Z]]|IH]; [left; exists z; split; [now right|exact Z]|now right]. }
  destruct acc.
  - apply (sorted_classes_unique _ _ name String.leb
             String.leb_total String.leb_antisym); try assumption.
    intro k.
    destruct (In1 (fun y => tied String.leb (name y) k) s1) as [[y [I T]]|E1].
    + apply (tied_iff _ String.leb String.leb_total String.leb_antisym) in T. subst k.
      rewrite <- !ties_of_name. apply Hc.
    + destruct (In1 (fun y => tied String.leb (name y) k) s2) as [[y [I T]]|E2].
      * apply (tied_iff _ String.leb String.leb_total String.leb_antisym) in T. subst k.
        rewrite <- !ties_of_name. apply Hc.
      * unfold key_class. now rewrite E1, E2.
  - apply (sorted_classes_unique _ _ propertiesCount Z.leb
             Zleb_total Zleb_antisym).
    + eapply StronglySorted_impl; [|exact H1]. intros x y. simpl. apply Z.leb_le.
    + eapply StronglySorted_impl; [|exact H2]. intros x y. simpl. apply Z.leb_le.
    + intro k.
      destruct (In1 (fun y => tied Z.leb (propertiesCount y) k) s1) as [[y [I T]]|E1].
      * apply (tied_iff _ Z.leb Zleb_total Zleb_antisym) in T. subst k.
        rewrite <- !ties_of_propertiesCount. apply Hc.
      * destruct (In1 (fun y => tied Z.leb (propertiesCount y) k) s2) as [[y [I T]]|E2].
        -- apply (tied_iff _ Z.leb Zleb_total Zleb_antisym) in T. subst k.
           rewrite <- !ties_of_propertiesCount. apply Hc.
        -- unfold key_class. now rewrite E1, E2.
Qed.

(** The stable ascending sort of a list is unique. *)
Lemma StableSortAsc_unique acc l s1 s2 :
  Spec.StableSortAsc acc l s1 -> Spec.StableSortAsc acc l s2 -> s1 = s2.
Proof.
  intros [_ [S1 C1]] [_ [S2 C2]].
  apply (ascending_unique acc); try assumption.
  intro x. now rewrite C1, C2.
Qed.

End TableSort.

(** ** The filter *)

Section TableFilter.

Import Contributions.

Lemma truthy_length {A : Type} (l : list A) :
  JS.truthy_number (Z.of_nat (List.length l)) =
  match l with [] => false | _ :: _ => true end.
Proof. now destruct l. Qed.

Lemma filter_callback_keepb v r :
  filter_callback (debouncedQuery v) (selectedStatuses v) r = Spec.keepb v r.
Proof.
  unfold filter_callback, Spec.keepb, JS.some. rewrite truthy_length.
  destruct (debouncedQuery v =? "")%string;
    destruct (JS.includes _ _);
    destruct (selectedStatuses v) as [|s sel]; simpl; try reflexivity;
    now destruct (_ || _).
Qed.

Lemma filtered_keepb v : filtered v = filter (Spec.keepb v) (data v).
Proof.
  unfold filtered. rewrite truthy_length, truthy_string_empty.
  destruct (negb (debouncedQuery v =? "")%string
            || match selectedStatuses v with [] => false | _ :: _ => true end) eqn:E.
  - apply filter_ext. intro r. apply filter_callback_keepb.
  - symmetry. apply forallb_filter_id. apply forallb_forall. intros r _.
    apply orb_false_iff in E. destruct E as [Eq Es].
    apply negb_false_iff in Eq. unfold Spec.keepb. rewrite Eq.
    now destruct (selectedStatuses v).
Qed.

Lemma keepb_kept v r : Spec.keepb v r = true <-> Spec.kept v r.
Proof.
  unfold Spec.keepb, Spec.kept, Spec.passes_text, Spec.passes_status.
  rewrite andb_true_iff, !orb_true_iff, String.eqb_eq, includes_contains,
    existsb_exists.
  apply and_iff_compat_l. split.
  - intros [H|[s [I E]]].
    + left. now destruct (selectedStatuses v).
    + right. apply String.eqb_eq in E. now subst.
  - intros [H|H].
    + left. now rewrite H.
    + right. exists (status r). split; [exact H | apply String.eqb_refl].
Qed.

Lemma paginated_incl v r : In r (paginated v) -> In r (filtered v).
Proof.
  unfold paginated. intros H. apply slice_incl in H. unfold sorted in H.
  assert (S : In r (sortBy (filtered v) (columnAccessor (sortStatus v)))).
  { destruct (direction (sortStatus v)); [exact H | now apply in_rev]. }
  destruct (sortBy_StableSortAsc (columnAccessor (sortStatus v)) (filtered v)) as [P _].
  eapply Permutation_in; [apply Permutation_sym, P | exact S].
Qed.

End TableFilter.

(** ** The visible page *)

Section VisiblePage.

Import Contributions.

(** C1.  The visible page is the filter, then the stable ascending sort by the
    sort key (reversed when the direction is descending), then the index
    range from [(page - 1) * pageSize] up to [page * pageSize]: the filter
    keeps exactly the records that pass the text test and the status test,
    the filtered list has a stable ascending sort, and the page is the index
    range of that sort, or of its reverse. *)
Theorem C1_filter_sort_paginate (v : View) :
  1 <= page v -> 0 <= pageSize v ->
  let acc := columnAccessor (sortStatus v) in
  let kept_records := filter (Spec.keepb v) (data v) in
  (forall r, Spec.keepb v r = true <-> Spec.kept v r)
  /\ (exists s, Spec.StableSortAsc acc kept_records s)
  /\ forall s, Spec.StableSortAsc acc kept_records s ->
       paginated v =
       Spec.index_range ((page v - 1) * pageSize v) (page v * pageSize v)
         (match direction (sortStatus v) with desc => rev s | asc => s end).
Proof.
  intros Hp Hs acc kept_records. split; [|split].
  - intro r. apply keepb_kept.
  - exists (sortBy kept_records acc). apply sortBy_StableSortAsc.
  - intros s Hsort.
    assert (E : s = sortBy (filtered v) acc).
    { rewrite filtered_keepb. eapply StableSortAsc_unique; [exact Hsort|].
      apply sortBy_StableSortAsc. }
    unfold paginated, sorted. fold acc. rewrite <- E.
    replace (page v * pageSize v) with ((page v - 1) * pageSize v + pageSize v) by ring.
    apply slice_index_range; nia.
Qed.

Lemma C1_filter_sort_paginate_witness :
  let v := {| data := [ {| description := "d"; id := 1; name := "b";
                            propertiesCount := 2; status := "paid" |};
                         {| description := "e"; id := 2; name := "a";
                            propertiesCount := 1; status := "paid" |} ];
              page := 1; pageSize := 5; records := [];
              sortStatus := {| columnAccessor := acc_name; direction := desc |};
              debouncedQuery := ""; selectedStatuses := ["paid"] |} in
  exists s, Spec.StableSortAsc acc_name (filter (Spec.keepb v) (data v)) s
            /\ paginated v = Spec.index_range 0 5 (rev s).
Proof.
  intro v.
  destruct (C1_filter_sort_paginate v) as [_ [[s Hs] Hpage]];
    [simpl; lia | simpl; lia |].
  exists s. split; [exact Hs | exact (Hpage s Hs)].
Defined.

(** C2.  The page has at most [pageSize] records and each of them passes the
    text filter and the status filter; on the two-record example with the
    query "al" the page is the record with id 1. *)
Theorem C2_page_bounded_and_filtered :
  (forall v : View, 0 <= pageSize v ->
     Z.of_nat (List.length (paginated v)) <= pageSize v
     /\ Forall (Spec.kept v) (paginated v))
  /\ (forall d1 c1 d2 c2 shown,
        let alpha := {| description := d1; id := 1; name := "Alpha";
                        propertiesCount := c1; status := "pending" |} in
        let beta := {| description := d2; id := 2; name := "Beta";
                       propertiesCount := c2; status := "paid" |} in
        paginated {| data := [alpha; beta]; page := 1; pageSize := 10;
                     records := shown;
                     sortStatus := {| columnAccessor := acc_name; direction := asc |};
                     debouncedQuery := "al"; selectedStatuses := [] |}
        = [alpha]).
Proof.
  split.
  - intros v Hs. split.
    + unfold paginated. now apply slice_length.
    + apply Forall_forall. intros r Hr.
      apply paginated_incl in Hr. rewrite filtered_keepb in Hr.
      apply filter_In in Hr. now apply keepb_kept.
  - intros. reflexivity.
Qed.

Lemma C2_page_bounded_and_filtered_witness :
  let v := {| data := [ {| description := "d"; id := 1; name := "Alpha";
                            propertiesCount := 2; status := "pending" |};
                         {| description := "e"; id := 2; name := "Beta";
                            propertiesCount := 1; status := "paid" |} ];
              page := 1; pageSize := 10; records := [];
              sortStatus := {| columnAccessor := acc_name; direction := asc |};
              debouncedQuery := "al"; selectedStatuses := [] |} in
  Z.of_nat (List.length (paginated v)) <= 10 /\ Forall (Spec.kept v) (paginated v).
Proof.
  intro v. apply (proj1 C2_page_bounded_and_filtered v). simpl. lia.
Defined.

(** When a filter is active the total handed to the table is the length of
    the rows on display. *)
Lemma totalRecords_filter_active v :
  JS.truthy_string (debouncedQuery v) = true \/ selectedStatuses v <> [] ->
  totalRecords v = Z.of_nat (List.length (records v)).
Proof.
  unfold totalRecords. intros [H|H].
  - now rewrite H.
  - destruct (selectedStatuses v) as [|x sel]; [congruence|].
    cbn [List.length]. rewrite Nat2Z.inj_succ.
    destruct (Z.gtb_spec (Z.succ (Z.of_nat (List.length sel))) 0); [|lia].
    now rewrite orb_true_r.
Qed.

(** Without a filter the total is the number of records, all of which match. *)
Lemma totalRecords_no_filter v :
  debouncedQuery v = "" -> selectedStatuses v = [] ->
  totalRecords v = Spec.totalMatching v.
Proof.
  unfold totalRecords, Spec.totalMatching. intros Hq Hs.
  rewrite <- filtered_keepb. unfold filtered. now rewrite Hq, Hs.
Qed.

(** C3.  Six pending records, the status filter set to "pending" after the
    first render, five rows per page: six records match, and the total handed
    to the table is five, the length of the page on display. *)
Theorem C3_totalRecords_counts_the_page :
  let rec_ n s := {| description := ""; id := n; name := s;
                     propertiesCount := 0; status := "pending" |} in
  let d := [rec_ 1 "a"; rec_ 2 "b"; rec_ 3 "c"; rec_ 4 "d"; rec_ 5 "e"; rec_ 6 "f"] in
  exists v0 v,
    mount 3 d = Some v0
    /\ onSelectedStatusesChange 3 ["pending"] v0 = Some v
    /\ records v = paginated v
    /\ Spec.totalMatching v = 6
    /\ totalRecords v = 5.
Proof.
  intros rec_ d.
  eexists. eexists. split; [vm_compute; reflexivity|].
  split; [vm_compute; reflexivity|].
  repeat split; vm_compute; reflexivity.
Qed.

End VisiblePage.

(** ** Descending order *)

Section DescendingFacts.

Variables A K : Type.
Variable key : A -> K.
Variable leb : K -> K -> bool.

Hypothesis leb_total : forall a b, leb a b = true \/ leb b a = true.
Hypothesis leb_trans : forall a b c, leb a b = true -> leb b c = true -> leb a c = true.
Hypothesis leb_antisym : forall a b, leb a b = true -> leb b a = true -> a = b.

Let geb (a b : K) : bool := leb b a.
Let ge (x y : A) : Prop := leb (key y) (key x) = true.

Lemma geb_total a b : geb a b = true \/ geb b a = true.
Proof. unfold geb. destruct (leb_total a b); auto. Qed.

Lemma geb_trans a b c : geb a b = true -> geb b c = true -> geb a c = true.
Proof. unfold geb. intros H1 H2. now apply (leb_trans c b a). Qed.

Lemma geb_antisym a b : geb a b = true -> geb b a = true -> a = b.
Proof. unfold geb. intros H1 H2. now apply leb_antisym. Qed.

Lemma key_class_geb k l : key_class key geb k l = key_class key leb k l.
Proof.
  apply filter_ext. intro x. unfold tied, geb. apply andb_comm.
Qed.

(** Reversing the ascending sort reverses every class of tied records. *)
Lemma rev_sort_by_classes k l :
  key_class key leb k (rev (sort_by key leb l)) = rev (key_class key leb k l).
Proof.
  rewrite key_class_rev. f_equal.
  now apply sort_by_stable.
Qed.

Lemma rev_sort_by_descending l : StronglySorted ge (rev (sort_by key leb l)).
Proof.
  apply (StronglySorted_rev (fun x y => leb (key x) (key y) = true)).
  now apply sort_by_sorted.
Qed.

(** Sorting by the converse order is a stable descending sort. *)
Lemma sort_by_geb_descending l : StronglySorted ge (sort_by key geb l).
Proof.
  apply (sort_by_sorted _ _ key geb geb_total geb_trans).
Qed.

Lemma sort_by_geb_stable k l :
  key_class key leb k (sort_by key geb l) = key_class key leb k l.
Proof.
  rewrite <- !key_class_geb.
  apply (sort_by_stable _ _ key geb geb_total geb_antisym).
Qed.

Lemma descending_classes_unique s1 s2 :
  StronglySorted ge s1 -> StronglySorted ge s2 ->
  (forall k, key_class key leb k s1 = key_class key leb k s2) ->
  s1 = s2.
Proof.
  intros H1 H2 Hc.
  apply (sorted_classes_unique _ _ key geb geb_total geb_antisym); try assumption.
  intro k. rewrite !key_class_geb. apply Hc.
Qed.

(** The reversed ascending sort is the stable descending sort exactly when no
    two elements have the same key. *)
Lemma rev_sort_by_stable_iff l s :
  NoDup l ->
  StronglySorted ge s ->
  (forall k, key_class key leb k s = key_class key leb k l) ->
  (rev (sort_by key leb l) = s <-> NoDup (map key l)).
Proof.
  intros Hn Hs Hc. split.
  - intros E. apply (short_classes_NoDup_keys _ _ key leb leb_total leb_antisym).
    intro k. apply NoDup_rev_eq_short.
    + now apply NoDup_filter.
    + fold (key_class key leb k l).
      rewrite <- rev_sort_by_classes, E. apply Hc.
  - intros Hk. apply descending_classes_unique.
    + apply rev_sort_by_descending.
    + exact Hs.
    + intro k. rewrite rev_sort_by_classes, Hc.
      pose proof (key_class_NoDup_keys _ _ key leb leb_total leb_antisym k l Hk) as L.
      destruct (key_class key leb k l) as [|x [|y c]]; simpl in *; try reflexivity; lia.
Qed.

End DescendingFacts.

Lemma no_ties_NoDup_keys {A K : Type} (key : A -> K) (l : list A) :
  (forall i j x y,
      nth_error l i = Some x -> nth_error l j = Some y -> i <> j -> key x <> key y)
  <-> NoDup (map key l).
Proof.
  split.
  - intros H. apply NoDup_nth_error. intros i j Hi E.
    rewrite !nth_error_map in E.
    destruct (nth_error l i) as [x|] eqn:Ei.
    + destruct (nth_error l j) as [y|] eqn:Ej; [|discriminate].
      simpl in E. injection E as E.
      destruct (Nat.eq_dec i j) as [|N]; [assumption|].
      exfalso. exact (H i j x y Ei Ej N E).
    + exfalso. rewrite length_map in Hi. apply nth_error_Some in Hi. congruence.
  - intros Hn i j x y Hi Hj Hij E. apply Hij.
    apply (proj1 (NoDup_nth_error (map key l)) Hn).
    + rewrite length_map. apply nth_error_Some. congruence.
    + rewrite !nth_error_map, Hi, Hj. simpl. now rewrite E.
Qed.

Section DescendingTable.

Import Contributions.

Lemma no_ties_name l : Spec.no_ties acc_name l <-> NoDup (map name l).
Proof.
  rewrite <- no_ties_NoDup_keys. unfold Spec.no_ties. simpl.
  split; intros H i j x y Hi Hj Hij.
  - apply String.eqb_neq. eauto.
  - apply String.eqb_neq. eauto.
Qed.

Lemma no_ties_propertiesCount l :
  Spec.no_ties acc_propertiesCount l <-> NoDup (map propertiesCount l).
Proof.
  rewrite <- no_ties_NoDup_keys. unfold Spec.no_ties. simpl.
  split; intros H i j x y Hi Hj Hij.
  - apply Z.eqb_neq. eauto.
  - apply Z.eqb_neq. eauto.
Qed.

(** Every list has a stable descending sort. *)
Lemma StableSortDesc_exists acc l : exists s, Spec.StableSortDesc acc l s.
Proof.
  destruct acc.
  - exists (sort_by name (fun a b => String.leb b a) l). repeat split.
    + apply sort_by_perm.
    + apply StronglySorted_Sorted.
      apply (sort_by_geb_descending _ _ name String.leb
               String.leb_total string_leb_trans).
    + intro x. rewrite !ties_of_name.
      apply (sort_by_geb_stable _ _ name String.leb String.leb_total String.leb_antisym).
  - exists (sort_by propertiesCount (fun a b => Z.leb b a) l). repeat split.
    + apply sort_by_perm.
    + apply StronglySorted_Sorted.
      eapply StronglySorted_impl;
        [|apply (sort_by_geb_descending _ _ propertiesCount Z.leb Zleb_total Zleb_trans)].
      intros x y. simpl. apply Z.leb_le.
    + intro x. rewrite !ties_of_propertiesCount.
      apply (sort_by_geb_stable _ _ propertiesCount Z.leb Zleb_total Zleb_antisym).
Qed.

Lemma rev_sortBy_stable_iff acc l s :
  NoDup l -> Spec.StableSortDesc acc l s ->
  (rev (sortBy l acc) = s <-> Spec.no_ties acc l).
Proof.
  intros Hn [_ [S C]].
  apply Sorted_StronglySorted in S; [|apply key_ge_trans].
  destruct acc; simpl.
  - rewrite no_ties_name.
    apply (rev_sort_by_stable_iff _ _ name String.leb
             String.leb_total string_leb_trans String.leb_antisym); try assumption.
    intro k.
    specialize (C {| description := ""; id := 0; name := k;
                     propertiesCount := 0; status := "" |}).
    now rewrite !ties_of_name in C.
  - rewrite no_ties_propertiesCount.
    apply (rev_sort_by_stable_iff _ _ propertiesCount Z.leb
             Zleb_total Zleb_trans Zleb_antisym); try assumption.
    + eapply StronglySorted_impl; [|exact S]. intros x y. simpl. apply Z.leb_le.
    + intro k.
      specialize (C {| description := ""; id := 0; name := "";
                       propertiesCount := k; status := "" |}).
      now rewrite !ties_of_propertiesCount in C.
Qed.

(** Records with unique identifiers are pairwise distinct. *)
Lemma unique_ids_distinct (l : list Contribution) : NoDup (map id l) -> NoDup l.
Proof. apply NoDup_map_inv. Qed.

(** C7.  With the descending direction the sorted list is the reverse of the
    stable ascending sort.  For pairwise distinct records (records with
    unique identifiers are) it is the stable descending sort exactly when no
    two records are tied on the key; in every case the records tied with a
    given one come out in the reverse of their original order. *)
Theorem C7_descending_reverses_stable_ascending (v : View) :
  direction (sortStatus v) = desc ->
  NoDup (filtered v) ->
  let acc := columnAccessor (sortStatus v) in
  let l := filtered v in
  sorted v = rev (sortBy l acc)
  /\ Spec.StableSortAsc acc l (sortBy l acc)
  /\ (exists s, Spec.StableSortDesc acc l s)
  /\ (forall s, Spec.StableSortDesc acc l s -> (sorted v = s <-> Spec.no_ties acc l))
  /\ (forall x, Spec.ties_of acc x (sorted v) = rev (Spec.ties_of acc x l)).
Proof.
  intros Hd Hid acc l.
  assert (E : sorted v = rev (sortBy l acc)) by (unfold sorted; now rewrite Hd).
  split; [exact E|]. split; [apply sortBy_StableSortAsc|].
  split; [apply StableSortDesc_exists|]. split.
  - intros s Hs. rewrite E. now apply rev_sortBy_stable_iff.
  - intro x. rewrite E, ties_of_rev. f_equal.
    now destruct (sortBy_StableSortAsc acc l) as [_ [_ C]].
Qed.

Lemma C7_descending_reverses_stable_ascending_witness :
  let a := {| description := ""; id := 1; name := "a"; propertiesCount := 3;
              status := "paid" |} in
  let b := {| description := ""; id := 2; name := "b"; propertiesCount := 3;
              status := "paid" |} in
  let v := {| data := [a; b]; page := 1; pageSize := 5; records := [];
              sortStatus := {| columnAccessor := acc_propertiesCount; direction := desc |};
              debouncedQuery := ""; selectedStatuses := [] |} in
  sorted v = [b; a]
  /\ Spec.StableSortDesc acc_propertiesCount [a; b] [a; b]
  /\ ~ Spec.no_ties acc_propertiesCount [a; b].
Proof.
  intros a b v.
  assert (Hd : direction (sortStatus v) = desc) by reflexivity.
  assert (Hid : NoDup (filtered v)).
  { apply unique_ids_distinct. simpl. repeat constructor; simpl; intuition discriminate. }
  destruct (C7_descending_reverses_stable_ascending v Hd Hid) as [E [_ [_ [Hiff _]]]].
  assert (Hs : Spec.StableSortDesc acc_propertiesCount [a; b] [a; b]).
  { repeat split.
    - apply Permutation_refl.
    - repeat constructor; simpl; lia.
  }
  split; [exact E|]. split; [exact Hs|].
  intro Hnt. apply (Hiff [a; b] Hs) in Hnt. rewrite E in Hnt. discriminate Hnt.
Defined.

End DescendingTable.

(** ** Re-rendering after a change of page size *)

Section PageSizeChange.

Import Contributions.

Lemma records_deps_changed_false p v :
  records_deps_changed (Some p) v = false <-> same_deps p v.
Proof.
  unfold records_deps_changed, same_deps.
  rewrite !orb_false_iff, !negb_false_iff, !Z.eqb_eq, String.eqb_eq.
  destruct (SortStatus_eq_dec (sortStatus p) (sortStatus v));
    destruct (Contributions_eq_dec (data p) (data v));
    destruct (strings_eq_dec (selectedStatuses p) (selectedStatuses v));
    intuition congruence.
Qed.

Lemma paginated_same_deps p v : same_deps p v -> paginated p = paginated v.
Proof.
  intros (H1 & H2 & H3 & H4 & H5 & H6).
  unfold paginated, sorted, filtered. now rewrite H1, H2, H3, H4, H5, H6.
Qed.

Lemma same_deps_set_records r v : same_deps v (set_records r v).
Proof. repeat split. Qed.

(** A render whose dependencies are those of the previous one runs no effect. *)
Lemma commit_same_deps p v : same_deps p v -> commit (Some p) v = v.
Proof.
  intros H. unfold commit.
  rewrite (proj2 (records_deps_changed_false p v) H).
  destruct H as (_ & _ & _ & H & _). simpl. rewrite H, Z.eqb_refl. reflexivity.
Qed.

(** A render that changes no dependency settles at once. *)
Lemma settle_same_deps fuel p v :
  same_deps p v -> settle (S fuel) (Some p) v = Some v.
Proof.
  intros H. simpl. rewrite (commit_same_deps p v H).
  now destruct (View_eq_dec v v).
Qed.

(** In the commit that follows the change both effects run: the first asks
    for page 1, the second computes rows from the page index of that render. *)
Lemma pageSize_change_first_commit (v : View) (n : Z) :
  n <> pageSize v ->
  commit (Some v) (set_pageSize n v)
  = set_records (paginated (set_pageSize n v)) (set_page 1 (set_pageSize n v)).
Proof.
  intros Hn. unfold commit.
  assert (P : pageSize_dep_changed (Some v) (set_pageSize n v) = true).
  { simpl. apply negb_true_iff. apply Z.eqb_neq. congruence. }
  assert (R : records_deps_changed (Some v) (set_pageSize n v) = true).
  { apply not_false_is_true. intro F. apply records_deps_changed_false in F.
    destruct F as (_ & _ & _ & F & _). simpl in F. congruence. }
  now rewrite P, R.
Qed.

(** C8, as amended.  A change of the page size, to any value other than the
    current one, resets the page index to 1 in the commit that follows the
    change, and the rows are computed again for page 1: within three commits
    the state settles with the page index 1 and the rows of page 1 at the new
    size, the other inputs being untouched. *)
Theorem C8_pageSize_change_resets_page (v : View) (n : Z) (fuel : nat) :
  n <> pageSize v -> (3 <= fuel)%nat ->
  exists v',
    onRecordsPerPageChange fuel n v = Some v'
    /\ page v' = 1
    /\ pageSize v' = n
    /\ records v' = paginated (set_page 1 (set_pageSize n v))
    /\ data v' = data v /\ sortStatus v' = sortStatus v
    /\ debouncedQuery v' = debouncedQuery v
    /\ selectedStatuses v' = selectedStatuses v
    /\ commit (Some v') v' = v'
    /\ page (commit (Some v) (set_pageSize n v)) = 1.
Proof.
  intros Hn Hf.
  assert (First : page (commit (Some v) (set_pageSize n v)) = 1)
    by now rewrite pageSize_change_first_commit.
  destruct fuel as [|[|[|fuel]]]; try lia.
  unfold onRecordsPerPageChange.
  destruct (Z.eqb_spec n (pageSize v)) as [|_]; [contradiction|].
  set (v0 := set_pageSize n v).
  assert (C0 : commit (Some v) v0 = set_records (paginated v0) (set_page 1 v0))
    by now apply pageSize_change_first_commit.
  assert (Q : forall w, same_deps w w) by (intro w; repeat split).
  cbn [settle]. rewrite C0.
  set (v1 := set_records (paginated v0) (set_page 1 v0)).
  destruct (View_eq_dec v1 v0) as [E0|_].
  - (* the state already was the one the effects ask for *)
    exists v0.
    assert (Ep : page v0 = 1) by (rewrite <- E0; reflexivity).
    assert (Er : records v0 = paginated v0) by (rewrite <- E0 at 1; reflexivity).
    repeat split; try reflexivity; try assumption.
    + rewrite Er. apply paginated_same_deps. repeat split. simpl. exact Ep.
    + apply commit_same_deps, Q.
  - destruct (Z.eq_dec (page v) 1) as [Hp|Hp].
    + (* the page index was 1 before the change *)
      assert (D : same_deps v0 v1) by (repeat split; simpl; congruence).
      rewrite (commit_same_deps v0 v1 D).
      destruct (View_eq_dec v1 v1) as [_|N]; [|congruence].
      exists v1. repeat split; try reflexivity.
      * simpl. apply paginated_same_deps. repeat split. simpl. congruence.
      * apply commit_same_deps, Q.
    + (* the rows are computed a second time, now for page 1 *)
      assert (C1 : commit (Some v0) v1 = set_records (paginated v1) v1).
      { unfold commit.
        assert (P : pageSize_dep_changed (Some v0) v1 = false).
        { simpl. now rewrite Z.eqb_refl. }
        assert (R : records_deps_changed (Some v0) v1 = true).
        { apply not_false_is_true. intro F. apply records_deps_changed_false in F.
          destruct F as (_ & _ & F & _). simpl in F. congruence. }
        now rewrite P, R. }
      rewrite C1. set (v2 := set_records (paginated v1) v1).
      destruct (View_eq_dec v2 v1) as [E1|_].
      * exists v1.
        assert (Er : records v1 = paginated v1) by (rewrite <- E1 at 1; reflexivity).
        repeat split; try reflexivity.
        -- rewrite Er. apply paginated_same_deps. repeat split.
        -- apply commit_same_deps, Q.
      * rewrite (commit_same_deps v1 v2 (same_deps_set_records _ v1)).
        destruct (View_eq_dec v2 v2) as [_|N]; [|congruence].
        exists v2. repeat split; try reflexivity.
        apply commit_same_deps, Q.
Qed.

Lemma C8_pageSize_change_resets_page_witness :
  let rec_ n s := {| description := ""; id := n; name := s;
                     propertiesCount := 0; status := "pending" |} in
  let d := [rec_ 1 "a"; rec_ 2 "b"; rec_ 3 "c"; rec_ 4 "d"; rec_ 5 "e"; rec_ 6 "f"] in
  let v := {| data := d; page := 2; pageSize := 5; records := [rec_ 6 "f"];
              sortStatus := {| columnAccessor := acc_name; direction := asc |};
              debouncedQuery := ""; selectedStatuses := [] |} in
  exists v', onRecordsPerPageChange 3 10 v = Some v' /\ page v' = 1
             /\ records v' = d.
Proof.
  intros rec_ d v.
  destruct (C8_pageSize_change_resets_page v 10 3) as (v' & H1 & H2 & _ & H4 & _);
    [simpl; lia | lia |].
  exists v'. split; [exact H1|]. split; [exact H2|]. rewrite H4. reflexivity.
Defined.

(** C8, as stated, fails in the commit of the change itself: six records,
    page 2 of size 5, and the size set to 10.  Both effects run in that
    commit, the second one with the page index of the render, which is still
    2; the rows it computes are those of page 2 at size 10, none, and not the
    six rows of page 1.  The reset is in force only in the render after. *)
Lemma C8_counterexample_rows_from_old_page :
  let rec_ n s := {| description := ""; id := n; name := s;
                     propertiesCount := 0; status := "pending" |} in
  let d := [rec_ 1 "a"; rec_ 2 "b"; rec_ 3 "c"; rec_ 4 "d"; rec_ 5 "e"; rec_ 6 "f"] in
  let v := {| data := d; page := 2; pageSize := 5; records := [rec_ 6 "f"];
              sortStatus := {| columnAccessor := acc_name; direction := asc |};
              debouncedQuery := ""; selectedStatuses := [] |} in
  let rendered := set_pageSize 10 v in
  let next := commit (Some v) rendered in
  records v = paginated v
  /\ page rendered = 2
  /\ records next = paginated rendered
  /\ records next = []
  /\ paginated (set_page 1 rendered) = d
  /\ records next <> paginated (set_page 1 rendered)
  /\ page next = 1
  /\ onRecordsPerPageChange 3 10 v = Some (set_records d next).
Proof.
  intros rec_ d v rendered next.
  repeat split; try reflexivity.
  intro H. vm_compute in H. discriminate H.
Qed.

End PageSizeChange.

(** ** The progress button *)

Section ProgressButton.

Import Contributions.

Lemma button_step_inv s e : button_inv s -> button_inv (button_step s e).
Proof.
  intros Inv. destruct e.
  - destruct Inv as [ -> | [ (Hr & Hd & Hi & Hp & k & Hk) | -> ] ].
    + right; left.
      change (button_step button_initial Click)
        with {| progress := 0; running := true; done := false;
                interval_active := true |}.
      cbn [progress running done interval_active].
      repeat split; try lia. now exists 0.
    + assert (E : button_step s Click = s)
        by (unfold button_step, disabled; now rewrite Hr).
      rewrite E. right; left. repeat split; try assumption; try lia. now exists k.
    + right; right. reflexivity.
  - destruct Inv as [ -> | [ (Hr & Hd & Hi & Hp & k & Hk) | -> ] ].
    + left. reflexivity.
    + unfold button_step. rewrite Hi. unfold interval_callback, rerender.
      destruct (Z.geb_spec (progress s) 100) as [G|L];
        cbn [progress running done interval_active]; rewrite Hr.
      * right; right. reflexivity.
      * cbn [Bool.eqb]. right; left.
        cbn [progress running done interval_active].
        repeat split; try assumption; unfold INCREMENT in *; try lia.
        exists (k + 1). lia.
    + right; right. reflexivity.
Qed.

Lemma fold_button_step_inv es :
  forall s, button_inv s -> button_inv (fold_left button_step es s).
Proof.
  induction es as [|e es IH]; intros s Hs; simpl.
  - exact Hs.
  - apply IH. now apply button_step_inv.
Qed.

Lemma button_run_inv es : button_inv (button_run es).
Proof. apply fold_button_step_inv. now left. Qed.

(** From a running state with progress [2 j], [k] ticks lead to progress
    [2 (j + k)], as long as that does not pass 100. *)
Lemma ticks_while_running (k : nat) :
  forall j, 0 <= j -> j + Z.of_nat k <= 50 ->
    fold_left button_step (repeat Tick k)
      {| progress := 2 * j; running := true; done := false; interval_active := true |}
    = {| progress := 2 * (j + Z.of_nat k); running := true; done := false;
         interval_active := true |}.
Proof.
  induction k as [|k IH]; intros j Hj Hk.
  - simpl. now rewrite Z.add_0_r.
  - cbn [repeat fold_left].
    assert (E : button_step
                  {| progress := 2 * j; running := true; done := false;
                     interval_active := true |} Tick
                = {| progress := 2 * (j + 1); running := true; done := false;
                     interval_active := true |}).
    { unfold button_step, interval_callback, rerender. cbn [interval_active progress running done].
      destruct (Z.geb_spec (2 * j) 100); [lia|].
      cbn [running Bool.eqb]. unfold INCREMENT. f_equal. lia. }
    rewrite E, IH by lia. f_equal. lia.
Qed.

(** C9.  In every state the button reaches: the progress stays within 0 and
    100; no event moves the phase backwards; a click outside the idle phase
    and any event in the done phase change nothing, and the button is then
    disabled; a click in the idle phase starts the run at progress 0; a tick
    of the run adds the increment below 100 and ends the run at 100; and a
    run started in the idle phase shows progress 2 k after k ticks, up to
    100, and is done after one more tick. *)
Theorem C9_search_button_state_machine (es : list ButtonEvent) :
  let s := button_run es in
  0 <= progress s <= 100
  /\ (forall e, (phase_rank (phase s) <= phase_rank (phase (button_step s e)))%nat)
  /\ (phase s <> Idle -> disabled s = true /\ button_step s Click = s)
  /\ (phase s = Done -> forall e, button_step s e = s)
  /\ (phase s = Idle ->
      phase (button_step s Click) = Running /\ progress (button_step s Click) = 0)
  /\ (phase s = Running -> progress s < 100 ->
      phase (button_step s Tick) = Running
      /\ progress (button_step s Tick) = progress s + INCREMENT)
  /\ (phase s = Running -> progress s = 100 ->
      phase (button_step s Tick) = Done /\ progress (button_step s Tick) = 100)
  /\ (phase s = Idle ->
      (forall k, (k <= 50)%nat ->
         let s' := button_run (es ++ Click :: repeat Tick k) in
         phase s' = Running /\ progress s' = INCREMENT * Z.of_nat k)
      /\ phase (button_run (es ++ Click :: repeat Tick 51)) = Done).
Proof.
  intro s. pose proof (button_run_inv es) as Inv. fold s in Inv.
  assert (Run : forall k, (k <= 50)%nat -> s = button_initial ->
            button_run (es ++ Click :: repeat Tick k)
            = {| progress := 2 * Z.of_nat k; running := true; done := false;
                 interval_active := true |}).
  { intros k Hk Hs. unfold button_run. rewrite fold_left_app.
    fold (button_run es). fold s. rewrite Hs. cbn [fold_left].
    change (button_step button_initial Click)
      with {| progress := 2 * 0; running := true; done := false;
              interval_active := true |}.
    rewrite ticks_while_running by lia. f_equal. }
  destruct Inv as [Hs | [ (Hr & Hd & Hi & Hp & j & Hj) | Hs ] ].
  - (* idle *)
    rewrite Hs.
    split. { simpl. lia. }
    split. { intros []; vm_compute; lia. }
    split. { intro H. exfalso. apply H. reflexivity. }
    split. { intro H. vm_compute in H. discriminate H. }
    split. { intros _. split; reflexivity. }
    split. { intro H. vm_compute in H. discriminate H. }
    split. { intro H. vm_compute in H. discriminate H. }
    intros _. split.
    + intros k Hk. cbv zeta. rewrite (Run k Hk Hs). split; reflexivity.
    + unfold button_run. rewrite fold_left_app.
      fold (button_run es). fold s. rewrite Hs. reflexivity.
  - (* running *)
    assert (Ph : phase s = Running) by (unfold phase; now rewrite Hr).
    assert (Ck : button_step s Click = s)
      by (unfold button_step, disabled; now rewrite Hr).
    assert (Tk : button_step s Tick =
                 if progress s >=? 100
                 then {| progress := 100; running := false; done := true;
                         interval_active := false |}
                 else {| progress := progress s + INCREMENT; running := true;
                         done := false; interval_active := true |}).
    { unfold button_step, interval_callback, rerender. rewrite Hi.
      destruct (progress s >=? 100); simpl; rewrite Hr; simpl; [reflexivity|].
      now rewrite Hd. }
    rewrite Ph.
    split. { exact Hp. }
    split. { intros []; [rewrite Ck, Ph; lia|]. rewrite Tk.
             destruct (progress s >=? 100); vm_compute; lia. }
    split. { intros _. split; [unfold disabled; now rewrite Hr | exact Ck]. }
    split. { intro H. discriminate H. }
    split. { intro H. discriminate H. }
    split. { intros _ Hlt. rewrite Tk.
             destruct (Z.geb_spec (progress s) 100); [lia|]. split; reflexivity. }
    split. { intros _ Heq. rewrite Tk.
             destruct (Z.geb_spec (progress s) 100); [|lia]. split; reflexivity. }
    intro H. discriminate H.
  - (* done *)
    rewrite Hs.
    split. { simpl. lia. }
    split. { intros []; vm_compute; lia. }
    split. { intros _. split; reflexivity. }
    split. { intros _ []; reflexivity. }
    split. { intro H. vm_compute in H. discriminate H. }
    split. { intro H. vm_compute in H. discriminate H. }
    split. { intro H. vm_compute in H. discriminate H. }
    intro H. vm_compute in H. discriminate H.
Qed.

Lemma C9_search_button_state_machine_witness :
  let s := button_run [Click; Tick; Click] in
  progress s = 2 /\ phase s = Running /\ button_step s Click = s
  /\ phase (button_step s Tick) = Running.
Proof.
  intro s.
  destruct (C9_search_button_state_machine [Click; Tick; Click])
    as (_ & _ & Hc & _ & _ & Ht & _).
  fold s in Hc, Ht.
  assert (Hp : phase s <> Idle) by (vm_compute; discriminate).
  assert (Hr : phase s = Running) by reflexivity.
  assert (Hl : progress s < 100) by (vm_compute; reflexivity).
  split; [reflexivity|]. split; [exact Hr|].
  split; [exact (proj2 (Hc Hp)) | exact (proj1 (Ht Hr Hl))].
Defined.

End ProgressButton.

(** ** The status badge *)

Section Badge.

Import Contributions.

(** C10.  The badge is defined for every status string: the three declared
    statuses get their colour and label, and every other string gets the
    gray "Sin estado" badge. *)
Theorem C10_StatusBadge_total :
  StatusBadge "searched" = {| color := "orange"; text := "Buscado" |}
  /\ StatusBadge "pending" = {| color := "blue"; text := "Pendiente" |}
  /\ StatusBadge "paid" = {| color := "green"; text := "Pagado" |}
  /\ (forall status : string,
        status <> "searched" -> status <> "pending" -> status <> "paid" ->
        StatusBadge status = {| color := "gray"; text := "Sin estado" |})
  /\ (forall status : string,
        In (StatusBadge status)
           [ {| color := "orange"; text := "Buscado" |};
             {| color := "blue"; text := "Pendiente" |};
             {| color := "green"; text := "Pagado" |};
             {| color := "gray"; text := "Sin estado" |} ]).
Proof.
  repeat split; try reflexivity.
  - intros status H1 H2 H3. unfold StatusBadge.
    apply String.eqb_neq in H1, H2, H3. now rewrite H1, H2, H3.
  - intro status. unfold StatusBadge.
    destruct (status =? "searched")%string; [now left|].
    destruct (status =? "pending")%string; [right; now left|].
    destruct (status =? "paid")%string; [right; right; now left|].
    right; right; right; now left.
Qed.

Lemma C10_StatusBadge_total_witness :
  StatusBadge "archived" = {| color := "gray"; text := "Sin estado" |}.
Proof.
  apply (proj1 (proj2 (proj2 (proj2 C10_StatusBadge_total)))); discriminate.
Defined.

End Badge.

(** ** The edit drawer *)

Section Drawer.

Import EditProductDrawer.

(** The guard of [handleSubmit] returns at once. *)
Lemma handleSubmit_guarded pr a vals env s :
  product pr = None \/ isCreator s = false \/ canEditProduct a = false ->
  run (handleSubmit pr a vals) env s = (s, []).
Proof.
  unfold run, handleSubmit, bind, get_state. simpl.
  intros [H|[H|H]]; destruct (product pr); try discriminate; try reflexivity;
    rewrite H; simpl; try rewrite orb_true_r; reflexivity.
Qed.

(** Past the guard, [handleSubmit] sends one request and then notifies. *)
Lemma handleSubmit_allowed pr a vals env s p :
  product pr = Some p -> isCreator s = true -> canEditProduct a = true ->
  let req := DrawerSpec.update_request a p vals in
  run (handleSubmit pr a vals) env s =
  (not_loading s,
   EvFetch req ::
   match fetch env req with
   | Rejected t =>
       [DrawerSpec.error_notification (message_of t "Failed to update product")]
   | Resolved r =>
       match json r with
       | inl t =>
           [DrawerSpec.error_notification (message_of t "Failed to update product")]
       | inr j =>
           if ok r
           then EvNotify {| n_title := "Success";
                            n_message := "Product updated successfully";
                            n_color := "green" |}
                :: (if onClose pr then [EvClose] else [])
                ++ (if onProductUpdated pr then [EvProductUpdated] else [])
           else [DrawerSpec.error_notification
                   (thrown_message j "Failed to update product")]
       end
   end).
Proof.
  intros Hp Hc He req. subst req.
  unfold run, handleSubmit, bind, get_state, DrawerSpec.update_request,
    DrawerSpec.error_notification.
  simpl. rewrite Hp, Hc, He. simpl.
  unfold finally, try_catch, bind, do_fetch, setLoading. simpl.
  match goal with |- context [fetch env ?q] => destruct (fetch env q) as [t|r] end;
    simpl; [reflexivity|].
  unfold response_json. destruct (json r) as [t|j]; simpl; [reflexivity|].
  destruct (ok r); simpl; [|reflexivity].
  destruct (onClose pr), (onProductUpdated pr); reflexivity.
Qed.

(** C4.  A submit sends a request only if the user is the creator of the
    product and holds the edit permission; when [isCreator] is false the
    handler returns with no event at all and the state as it was. *)
Theorem C4_submit_requires_creator_and_permission
  (pr : Props) (a : Auth) (vals : FormValues) (env : Env) :
  (forall s0 r,
      In (EvFetch r) (snd (run (handleSubmit pr a vals) env (product_effect pr a s0))) ->
      exists p, product pr = Some p
                /\ strict_eq (user_id a) (createdById p) = true
                /\ canEditProduct a = true)
  /\ (forall s r,
        In (EvFetch r) (snd (run (handleSubmit pr a vals) env s)) ->
        isCreator s = true /\ canEditProduct a = true)
  /\ (forall s, isCreator s = false ->
        run (handleSubmit pr a vals) env s = (s, [])).
Proof.
  assert (G : forall s r,
             In (EvFetch r) (snd (run (handleSubmit pr a vals) env s)) ->
             exists p, product pr = Some p /\ isCreator s = true
                       /\ canEditProduct a = true).
  { intros s r H.
    destruct (product pr) as [p|] eqn:Hp.
    - destruct (isCreator s) eqn:Hc.
      + destruct (canEditProduct a) eqn:He.
        * now exists p.
        * rewrite handleSubmit_guarded in H by auto. destruct H.
      + rewrite handleSubmit_guarded in H by auto. destruct H.
    - rewrite handleSubmit_guarded in H by auto. destruct H. }
  split; [|split].
  - intros s0 r H. destruct (G _ _ H) as (p & Hp & Hc & He).
    exists p. repeat split; try assumption.
    unfold product_effect in Hc. now rewrite Hp in Hc.
  - intros s r H. destruct (G _ _ H) as (p & _ & Hc & He). now split.
  - intros s Hc. apply handleSubmit_guarded. auto.
Qed.

Lemma C4_submit_requires_creator_and_permission_witness :
  let p := {| id := "7"; createdById := Some "ana"; p_title := Some "Lamp";
              p_description := None; p_price := Some 10; p_quantityInStock := None;
              p_sku := None; p_isActive := Some true; p_status := None;
              p_categoryId := None |} in
  let pr := {| product := Some p; onProductUpdated := true; onClose := true |} in
  let a := {| user_id := Some "luis"; accessToken := "t";
              permissions := Some ["Permissions.Products.Edit"] |} in
  let env := {| window_confirm := fun _ => true;
                fetch := fun _ => Resolved {| ok := true; json := inr (JsonWith None) |} |} in
  let s := product_effect pr a initial in
  run (handleSubmit pr a initialValues) env s = (s, []).
Proof.
  intros p pr a env s.
  apply (proj2 (proj2 (C4_submit_requires_creator_and_permission pr a initialValues env))).
  reflexivity.
Defined.

(** The guard of [handleDelete] returns at once. *)
Lemma handleDelete_guarded pr a env s :
  product pr = None \/ isCreator s = false ->
  run (handleDelete pr a) env s = (s, []).
Proof.
  unfold run, handleDelete, bind, get_state. simpl.
  intros [H|H]; destruct (product pr); try discriminate; try reflexivity.
  now rewrite H.
Qed.

(** A declined confirmation ends the handler. *)
Lemma handleDelete_declined pr a env s p :
  product pr = Some p -> isCreator s = true ->
  window_confirm env delete_question = false ->
  run (handleDelete pr a) env s = (s, [EvConfirm delete_question false]).
Proof.
  intros Hp Hc Hq.
  unfold run, handleDelete, bind, get_state, confirm, delete_question in *. simpl.
  rewrite Hp, Hc. simpl. rewrite Hq. reflexivity.
Qed.

(** A confirmed delete sends one request and then notifies. *)
Lemma handleDelete_confirmed pr a env s p :
  product pr = Some p -> isCreator s = true ->
  window_confirm env delete_question = true ->
  let req := DrawerSpec.delete_request a p in
  run (handleDelete pr a) env s =
  (not_loading s,
   EvConfirm delete_question true :: EvFetch req ::
   match fetch env req with
   | Rejected t =>
       [DrawerSpec.error_notification (message_of t "Failed to delete product")]
   | Resolved r =>
       if ok r
       then EvNotify {| n_title := "Success";
                        n_message := "Product deleted successfully";
                        n_color := "green" |}
            :: (if onClose pr then [EvClose] else [])
            ++ (if onProductUpdated pr then [EvProductUpdated] else [])
       else
         match json r with
         | inl t =>
             [DrawerSpec.error_notification (message_of t "Failed to delete product")]
         | inr j =>
             [DrawerSpec.error_notification
                (thrown_message j "Failed to delete product")]
         end
   end).
Proof.
  intros Hp Hc Hq req. subst req.
  unfold run, handleDelete, bind, get_state, confirm, delete_question,
    DrawerSpec.delete_request, DrawerSpec.error_notification in *.
  simpl. rewrite Hp, Hc. simpl. rewrite Hq. simpl.
  unfold finally, try_catch, bind, do_fetch, setLoading. simpl.
  match goal with |- context [fetch env ?q] => destruct (fetch env q) as [t|r] end;
    simpl; [reflexivity|].
  destruct (ok r); simpl.
  - destruct (onClose pr), (onProductUpdated pr); reflexivity.
  - unfold response_json, bind. destruct (json r) as [t|j]; reflexivity.
Qed.

Lemma head_before_fetch (x : Event) (l pre post : list Event) (r : Request) :
  is_fetch x = false -> x :: l = (pre ++ EvFetch r :: post)%list -> In x pre.
Proof.
  intros Hx H. destruct pre as [|y pre]; simpl in H.
  - injection H as H _. subst x. discriminate.
  - injection H as H _. left. congruence.
Qed.

(** C5.  A delete sends a request only for the creator and only after the
    confirmation dialog has answered yes; a confirmed delete sends exactly
    one request, the DELETE of the product; after a 2xx response each
    supplied callback runs exactly once, the close callback and the refresh
    callback. *)
Theorem C5_delete_confirmed_once (pr : Props) (a : Auth) (env : Env) (s : State) :
  let evs := snd (run (handleDelete pr a) env s) in
  (forall pre r post,
      evs = (pre ++ EvFetch r :: post)%list ->
      isCreator s = true /\ In (EvConfirm delete_question true) pre)
  /\ (forall r,
        In (EvFetch r) (snd (run (handleDelete pr a) env (product_effect pr a s))) ->
        exists p, product pr = Some p
                  /\ strict_eq (user_id a) (createdById p) = true)
  /\ (forall p,
        product pr = Some p -> isCreator s = true ->
        window_confirm env delete_question = true ->
        count is_fetch evs = 1%nat
        /\ In (EvFetch (DrawerSpec.delete_request a p)) evs
        /\ forall r,
             fetch env (DrawerSpec.delete_request a p) = Resolved r -> ok r = true ->
             count is_refresh evs = (if onProductUpdated pr then 1 else 0)%nat
             /\ count is_close evs = (if onClose pr then 1 else 0)%nat).
Proof.
  intro evs. split; [|split].
  - intros pre r post H. subst evs.
    destruct (product pr) as [p|] eqn:Hp.
    + destruct (isCreator s) eqn:Hc.
      * destruct (window_confirm env delete_question) eqn:Hq.
        -- rewrite (handleDelete_confirmed pr a env s p Hp Hc Hq) in H. simpl in H.
           split; [reflexivity|]. eapply head_before_fetch; [|exact H]. reflexivity.
        -- rewrite (handleDelete_declined pr a env s p Hp Hc Hq) in H. simpl in H.
           destruct pre as [|y [|z pre]]; simpl in H; discriminate H.
      * rewrite handleDelete_guarded in H by auto. simpl in H.
        destruct pre; discriminate H.
    + rewrite handleDelete_guarded in H by auto. simpl in H.
      destruct pre; discriminate H.
  - intros r H.
    destruct (product pr) as [p|] eqn:Hp.
    + exists p. split; [reflexivity|].
      destruct (isCreator (product_effect pr a s)) eqn:Hc.
      * unfold product_effect in Hc. now rewrite Hp in Hc.
      * rewrite handleDelete_guarded in H by auto. destruct H.
    + rewrite handleDelete_guarded in H by auto. destruct H.
  - intros p Hp Hc Hq. subst evs.
    rewrite (handleDelete_confirmed pr a env s p Hp Hc Hq). cbn [snd].
    split; [|split].
    + unfold count. cbn [filter is_fetch List.length]. f_equal.
      destruct (fetch env _) as [t|r]; [reflexivity|].
      destruct (ok r).
      * destruct (onClose pr), (onProductUpdated pr); reflexivity.
      * destruct (json r); reflexivity.
    + right. now left.
    + intros r Hr Hok. rewrite Hr, Hok. unfold count.
      destruct (onClose pr), (onProductUpdated pr); split; reflexivity.
Qed.

Lemma C5_delete_confirmed_once_witness :
  let p := {| id := "7"; createdById := Some "ana"; p_title := Some "Lamp";
              p_description := None; p_price := Some 10; p_quantityInStock := None;
              p_sku := None; p_isActive := Some true; p_status := None;
              p_categoryId := None |} in
  let pr := {| product := Some p; onProductUpdated := true; onClose := true |} in
  let a := {| user_id := Some "ana"; accessToken := "t"; permissions := None |} in
  let env := {| window_confirm := fun _ => true;
                fetch := fun _ => Resolved {| ok := true; json := inl NotAnError |} |} in
  let evs := snd (run (handleDelete pr a) env (product_effect pr a initial)) in
  count is_fetch evs = 1%nat /\ count is_refresh evs = 1%nat
  /\ count is_close evs = 1%nat.
Proof.
  intros p pr a env evs.
  destruct (C5_delete_confirmed_once pr a env (product_effect pr a initial))
    as [_ [_ H]].
  destruct (H p eq_refl eq_refl eq_refl) as (H1 & _ & H3).
  destruct (H3 _ eq_refl eq_refl) as [H4 H5].
  split; [exact H1|]. split; [exact H4 | exact H5].
Defined.

End Drawer.

(** ** A failed update *)

Section DrawerFailure.

Import EditProductDrawer.

(** When the body of a failed response parses, the message is the one of the
    Error that the [throw] statement ends with. *)
Lemma amended_message_parsed r j :
  json r = inr j ->
  DrawerSpec.amended_message (Resolved r) = thrown_message j "Failed to update product".
Proof.
  intro Hj. unfold DrawerSpec.amended_message, DrawerSpec.stated_message,
    DrawerSpec.server_message. rewrite Hj.
  destruct j as [m | [[|c m]|] | m | m]; reflexivity.
Qed.

(** C6, as amended.  A failed update submission (transport error or non-2xx
    response) sends its request and shows one error notification.  When
    nothing is thrown before the handler builds its own Error, the
    notification carries the server's error (the body's [error] property: a
    non-empty string, or another truthy value as [new Error] renders it) and
    the generic message when that property is missing or falsy.  When an
    Error is thrown, by the request, by the reading of the body, by the
    reading of [error] from a [null] body or by the conversion of [error] to
    a string, the notification carries that Error's own message; a thrown
    value that is not an Error gives the generic message.  Neither the close
    callback nor the refresh callback runs, and the form values are left as
    they were. *)
Theorem C6_failed_update_notifies_and_keeps_editor
  (pr : Props) (a : Auth) (vals : FormValues) (env : Env) (s : State) (p : IProduct) :
  product pr = Some p -> isCreator s = true -> canEditProduct a = true ->
  let o := fetch env (DrawerSpec.update_request a p vals) in
  DrawerSpec.failed o ->
  let s' := fst (run (handleSubmit pr a vals) env s) in
  let evs := snd (run (handleSubmit pr a vals) env s) in
  evs = [EvFetch (DrawerSpec.update_request a p vals);
         DrawerSpec.error_notification (DrawerSpec.amended_message o)]
  /\ count is_notify evs = 1%nat
  /\ count is_close evs = 0%nat
  /\ count is_refresh evs = 0%nat
  /\ values s' = values s
  /\ isCreator s' = isCreator s
  /\ (~ DrawerSpec.throws_error o ->
      DrawerSpec.amended_message o = DrawerSpec.stated_message o)
  /\ (forall r e, o = Resolved r -> json r = inr (JsonWith e) ->
        DrawerSpec.amended_message o
        = match e with
          | Some (String c m) => String c m
          | _ => "Failed to update product"
          end)
  /\ (forall r m, o = Resolved r -> json r = inr (JsonWithOther m) ->
        DrawerSpec.amended_message o = m)
  /\ (forall r m, o = Resolved r ->
        json r = inr (JsonNull m) \/ json r = inr (JsonUnprintable m) ->
        DrawerSpec.amended_message o = m)
  /\ (forall r m, o = Resolved r -> json r = inl (ErrorObject m) ->
        DrawerSpec.amended_message o = m)
  /\ (forall m, o = Rejected (ErrorObject m) -> DrawerSpec.amended_message o = m)
  /\ (o = Rejected NotAnError \/ (exists r, o = Resolved r /\ json r = inl NotAnError) ->
      DrawerSpec.amended_message o = "Failed to update product").
Proof.
  intros Hp Hc He o Hf s' evs.
  assert (E : evs = [EvFetch (DrawerSpec.update_request a p vals);
                     DrawerSpec.error_notification (DrawerSpec.amended_message o)]).
  { subst evs. rewrite (handleSubmit_allowed pr a vals env s p Hp Hc He). cbn [snd].
    fold o. f_equal.
    destruct o as [[m|]|r]; try reflexivity.
    simpl in Hf.
    destruct (json r) as [[m|]|j] eqn:Hj.
    - unfold DrawerSpec.amended_message. now rewrite Hj.
    - unfold DrawerSpec.amended_message. now rewrite Hj.
    - rewrite Hf, (amended_message_parsed r j Hj). reflexivity. }
  split; [exact E|]. rewrite E.
  split; [reflexivity|]. split; [reflexivity|]. split; [reflexivity|].
  subst s'. rewrite (handleSubmit_allowed pr a vals env s p Hp Hc He). cbn [fst].
  split; [reflexivity|]. split; [reflexivity|].
  unfold DrawerSpec.amended_message, DrawerSpec.throws_error,
    DrawerSpec.stated_message, DrawerSpec.server_message.
  split; [|split; [|split; [|split; [|split; [|split]]]]].
  - intro Ht. destruct o as [t|r]; [now destruct Ht|].
    destruct (json r) as [t|[m|e|m|m]]; try (now destruct Ht); reflexivity.
  - intros r e -> Hj. rewrite Hj. now destruct e as [[|c m]|].
  - intros r m -> Hj. now rewrite Hj.
  - intros r m -> [Hj|Hj]; now rewrite Hj.
  - intros r m -> Hj. now rewrite Hj.
  - intros m ->. reflexivity.
  - intros [->|[r [-> Hj]]]; [reflexivity | now rewrite Hj].
Qed.

Lemma C6_failed_update_notifies_and_keeps_editor_witness :
  let p := {| id := "7"; createdById := Some "ana"; p_title := Some "Lamp";
              p_description := None; p_price := Some 10; p_quantityInStock := None;
              p_sku := None; p_isActive := Some true; p_status := None;
              p_categoryId := None |} in
  let pr := {| product := Some p; onProductUpdated := true; onClose := true |} in
  let a := {| user_id := Some "ana"; accessToken := "t";
              permissions := Some ["Permissions.Products.Edit"] |} in
  let env := {| window_confirm := fun _ => true;
                fetch := fun _ => Resolved {| ok := false;
                                              json := inr (JsonWith (Some "SKU taken")) |} |} in
  let s := product_effect pr a initial in
  snd (run (handleSubmit pr a (values s)) env s)
  = [EvFetch (DrawerSpec.update_request a p (values s));
     DrawerSpec.error_notification "SKU taken"].
Proof.
  intros p pr a env s.
  exact (proj1 (C6_failed_update_notifies_and_keeps_editor pr a (values s) env s p
                  eq_refl eq_refl eq_refl eq_refl)).
Defined.

(** A non-2xx answer whose body is [null]: the read of [data.error] throws,
    and the notification carries the message of that TypeError. *)
Lemma failed_update_null_body :
  let p := {| id := "7"; createdById := Some "ana"; p_title := Some "Lamp";
              p_description := None; p_price := Some 10; p_quantityInStock := None;
              p_sku := None; p_isActive := Some true; p_status := None;
              p_categoryId := None |} in
  let pr := {| product := Some p; onProductUpdated := true; onClose := true |} in
  let a := {| user_id := Some "ana"; accessToken := "t";
              permissions := Some ["Permissions.Products.Edit"] |} in
  let s := product_effect pr a initial in
  let env := {| window_confirm := fun _ => true;
                fetch := fun _ =>
                  Resolved {| ok := false;
                              json := inr (JsonNull "Cannot read properties of null") |} |} in
  snd (run (handleSubmit pr a (values s)) env s)
  = [EvFetch (DrawerSpec.update_request a p (values s));
     DrawerSpec.error_notification "Cannot read properties of null"].
Proof. reflexivity. Qed.

(** C6, as stated, fails when something is thrown: after a transport error,
    and after a non-2xx response whose body is not JSON, the notification
    carries the message of the thrown Error, not the generic message. *)
Lemma C6_counterexample_thrown_error_message :
  let p := {| id := "7"; createdById := Some "ana"; p_title := Some "Lamp";
              p_description := None; p_price := Some 10; p_quantityInStock := None;
              p_sku := None; p_isActive := Some true; p_status := None;
              p_categoryId := None |} in
  let pr := {| product := Some p; onProductUpdated := true; onClose := true |} in
  let a := {| user_id := Some "ana"; accessToken := "t";
              permissions := Some ["Permissions.Products.Edit"] |} in
  let s := product_effect pr a initial in
  let req := DrawerSpec.update_request a p (values s) in
  let offline := {| window_confirm := fun _ => true;
                    fetch := fun _ => Rejected (ErrorObject "Failed to fetch") |} in
  let gateway := {| window_confirm := fun _ => true;
                    fetch := fun _ =>
                      Resolved {| ok := false;
                                  json := inl (ErrorObject "Unexpected token < in JSON") |} |} in
  (DrawerSpec.failed (fetch offline req)
   /\ snd (run (handleSubmit pr a (values s)) offline s)
      = [EvFetch req; DrawerSpec.error_notification "Failed to fetch"]
   /\ DrawerSpec.stated_message (fetch offline req) = "Failed to update product"
   /\ ~ In (DrawerSpec.error_notification (DrawerSpec.stated_message (fetch offline req)))
           (snd (run (handleSubmit pr a (values s)) offline s)))
  /\ (DrawerSpec.failed (fetch gateway req)
      /\ snd (run (handleSubmit pr a (values s)) gateway s)
         = [EvFetch req; DrawerSpec.error_notification "Unexpected token < in JSON"]
      /\ DrawerSpec.stated_message (fetch gateway req) = "Failed to update product"
      /\ ~ In (DrawerSpec.error_notification (DrawerSpec.stated_message (fetch gateway req)))
              (snd (run (handleSubmit pr a (values s)) gateway s))).
Proof.
  intros p pr a s req offline gateway. split.
  - split; [exact I|]. split; [reflexivity|]. split; [reflexivity|].
    intro H. vm_compute in H. destruct H as [H|[H|[]]]; discriminate H.
  - split; [reflexivity|]. split; [reflexivity|]. split; [reflexivity|].
    intro H. vm_compute in H. destruct H as [H|[H|[]]]; discriminate H.
Qed.

End DrawerFailure.

(** * Further properties of the table *)

(** ** The status options *)

Section StatusOptions.

Import Contributions TableControls.

Lemma Set_add_In s x y : In y (Set_add s x) <-> In y s \/ y = x.
Proof.
  unfold Set_add. destruct (existsb (String.eqb x) s) eqn:E.
  - split; [now left|]. intros [H| ->]; [exact H|].
    apply existsb_exists in E. destruct E as [z [Hz E]].
    apply String.eqb_eq in E. now subst.
  - rewrite in_app_iff. simpl. intuition.
Qed.

Lemma Set_add_NoDup s x : NoDup s -> NoDup (Set_add s x).
Proof.
  intros Hs. unfold Set_add. destruct (existsb (String.eqb x) s) eqn:E.
  - exact Hs.
  - apply NoDup_app; [exact Hs | repeat constructor; intros [] |].
    intros y Hy [Exy|[]].
    assert (T : existsb (String.eqb x) s = true).
    { apply existsb_exists. exists y. split; [exact Hy|]. now apply String.eqb_eq. }
    congruence.
Qed.

Lemma fold_Set_add xs :
  forall s, NoDup s ->
    NoDup (fold_left Set_add xs s)
    /\ forall y, In y (fold_left Set_add xs s) <-> In y s \/ In y xs.
Proof.
  induction xs as [|x xs IH]; intros s Hs; simpl.
  - split; [exact Hs|]. intuition.
  - destruct (IH (Set_add s x) (Set_add_NoDup s x Hs)) as [N I].
    split; [exact N|]. intro y. rewrite I, Set_add_In. intuition.
Qed.

Lemma statuses_In (d : list Contribution) (s : string) :
  In s (statuses d) <-> exists r, In r d /\ status r = s.
Proof.
  unfold statuses, new_Set.
  destruct (fold_Set_add (map status d) [] (NoDup_nil _)) as [_ I].
  rewrite I, in_map_iff. simpl. split.
  - intros [[]|[r [E H]]]. now exists r.
  - intros [r [H E]]. right. now exists r.
Qed.

(** The options of the status filter are the statuses that occur in the
    data, each of them once. *)
Theorem statuses_distinct_and_complete (d : list Contribution) :
  NoDup (statuses d)
  /\ forall s, In s (statuses d) <-> exists r, In r d /\ status r = s.
Proof.
  unfold statuses, new_Set.
  destruct (fold_Set_add (map status d) [] (NoDup_nil _)) as [N I].
  split; [exact N|]. intro s. rewrite I, in_map_iff. simpl. split.
  - intros [[]|[r [E H]]]. now exists r.
  - intros [r [H E]]. right. now exists r.
Qed.

Lemma status_selected_passes sel r :
  In (status r) sel ->
  JS.some (fun s => (s =? status r)%string) sel = true.
Proof.
  intro H. apply existsb_exists. exists (status r).
  split; [exact H | apply String.eqb_refl].
Qed.

(** With an empty query, a selection that covers every status of the data
    hides no record, as does the selection of all the offered options; and
    every offered option, selected alone, shows at least one record. *)
Theorem offered_statuses_cover_the_data (v : View) :
  debouncedQuery v = "" ->
  ((forall r, In r (data v) -> In (status r) (selectedStatuses v)) ->
   filtered v = data v)
  /\ (selectedStatuses v = statuses (data v) -> filtered v = data v)
  /\ (forall s, In s (statuses (data v)) -> selectedStatuses v = [s] ->
        filtered v <> []).
Proof.
  intro Hq.
  assert (A : (forall r, In r (data v) -> In (status r) (selectedStatuses v)) ->
              filtered v = data v).
  { intro H. unfold filtered. rewrite Hq. simpl.
    destruct (JS.truthy_number _); [|reflexivity].
    apply forallb_filter_id. apply forallb_forall. intros r Hr.
    unfold filter_callback. simpl.
    rewrite (status_selected_passes _ _ (H r Hr)). simpl.
    now rewrite andb_false_r. }
  split; [exact A|]. split.
  - intro Hs. apply A. intros r Hr. rewrite Hs.
    apply statuses_In. now exists r.
  - intros s Hs Hsel Hnil.
    apply statuses_In in Hs. destruct Hs as [r [Hr Es]].
    assert (I : In r (filtered v)).
    { rewrite filtered_keepb. apply filter_In. split; [exact Hr|].
      unfold Spec.keepb. rewrite Hq, Hsel. simpl. rewrite Es, String.eqb_refl.
      reflexivity. }
    rewrite Hnil in I. destruct I.
Qed.

Lemma offered_statuses_cover_the_data_witness :
  let r1 := {| description := ""; id := 1; name := "a"; propertiesCount := 0;
               status := "paid" |} in
  let r2 := {| description := ""; id := 2; name := "b"; propertiesCount := 0;
               status := "pending" |} in
  let v := {| data := [r1; r2; r1]; page := 1; pageSize := 5; records := [];
              sortStatus := {| columnAccessor := acc_name; direction := asc |};
              debouncedQuery := ""; selectedStatuses := ["paid"; "pending"] |} in
  filtered v = [r1; r2; r1].
Proof.
  intros r1 r2 v.
  apply (proj1 (proj2 (offered_statuses_cover_the_data v eq_refl))). reflexivity.
Defined.

End StatusOptions.

(** ** The filter *)

Section FilterFacts.

Import Contributions TableControls.

Lemma filter_filter {A : Type} (f : A -> bool) (l : list A) :
  filter f (filter f l) = filter f l.
Proof.
  induction l as [|x l IH]; simpl; [reflexivity|].
  destruct (f x) eqn:E; simpl; [rewrite E; f_equal|]; exact IH.
Qed.

(** Filtering what the filter kept changes nothing. *)
Theorem filtered_idempotent (v : View) :
  filtered (set_data (filtered v) v) = filtered v.
Proof.
  rewrite (filtered_keepb (set_data (filtered v) v)), (filtered_keepb v).
  cbn [data set_data].
  change (Spec.keepb (set_data (filter (Spec.keepb v) (data v)) v))
    with (Spec.keepb v).
  apply filter_filter.
Qed.

Lemma includes_empty s : JS.includes s "" = true.
Proof. apply includes_contains. now exists "", s. Qed.

(** A query that is all white space is not the empty query, yet it hides
    nothing: the rows are those of the empty query. *)
Theorem blank_query_filters_nothing (v : View) :
  JS.trim (debouncedQuery v) = "" ->
  filtered v = filtered (set_debouncedQuery "" v).
Proof.
  intro Ht. rewrite !filtered_keepb. cbn [data set_debouncedQuery].
  apply filter_ext. intro r. unfold Spec.keepb.
  cbn [debouncedQuery selectedStatuses set_debouncedQuery].
  rewrite Ht. cbn [JS.toLowerCase]. rewrite includes_empty.
  now rewrite orb_true_r.
Qed.

Lemma blank_query_filters_nothing_witness :
  let r1 := {| description := ""; id := 1; name := "a"; propertiesCount := 0;
               status := "paid" |} in
  let v := {| data := [r1]; page := 1; pageSize := 5; records := [];
              sortStatus := {| columnAccessor := acc_name; direction := asc |};
              debouncedQuery := "   "; selectedStatuses := [] |} in
  filtered v = [r1] /\ JS.truthy_string (debouncedQuery v) = true.
Proof.
  intros r1 v. split; [|reflexivity].
  rewrite (blank_query_filters_nothing v); reflexivity.
Defined.

Lemma lower_char_idempotent c : JS.lower_char (JS.lower_char c) = JS.lower_char c.
Proof. destruct c as [[] [] [] [] [] [] [] []]; reflexivity. Qed.

Lemma lower_char_space c : JS.is_space (JS.lower_char c) = JS.is_space c.
Proof. destruct c as [[] [] [] [] [] [] [] []]; reflexivity. Qed.

Lemma toLowerCase_idempotent s : JS.toLowerCase (JS.toLowerCase s) = JS.toLowerCase s.
Proof.
  induction s as [|c s IH]; simpl; [reflexivity|].
  now rewrite lower_char_idempotent, IH.
Qed.

Lemma trimStart_toLowerCase s :
  JS.trimStart (JS.toLowerCase s) = JS.toLowerCase (JS.trimStart s).
Proof.
  induction s as [|c s IH]; simpl; [reflexivity|].
  rewrite lower_char_space. now destruct (JS.is_space c).
Qed.

Lemma trimEnd_toLowerCase s :
  JS.trimEnd (JS.toLowerCase s) = JS.toLowerCase (JS.trimEnd s).
Proof.
  induction s as [|c s IH]; simpl; [reflexivity|].
  rewrite IH, lower_char_space.
  destruct (JS.trimEnd s); simpl; [now destruct (JS.is_space c)|reflexivity].
Qed.

Lemma trim_toLowerCase s : JS.trim (JS.toLowerCase s) = JS.toLowerCase (JS.trim s).
Proof. unfold JS.trim. now rewrite trimStart_toLowerCase, trimEnd_toLowerCase. Qed.

(** The case of the query does not matter: the query and its lower-case form
    keep the same records; and two records whose names differ only in case
    and that have the same status are kept or dropped together. *)
Theorem filter_ignores_case (q : string) (sel : list string) :
  (forall r, filter_callback (JS.toLowerCase q) sel r = filter_callback q sel r)
  /\ (forall r1 r2,
        JS.toLowerCase (name r1) = JS.toLowerCase (name r2) ->
        status r1 = status r2 ->
        filter_callback q sel r1 = filter_callback q sel r2).
Proof.
  split.
  - intro r. unfold filter_callback.
    rewrite trim_toLowerCase, toLowerCase_idempotent.
    now destruct q.
  - intros r1 r2 Hn Hs. unfold filter_callback. now rewrite Hn, Hs.
Qed.

Lemma filter_ignores_case_witness :
  let r1 := {| description := ""; id := 1; name := "ALPHA"; propertiesCount := 0;
               status := "paid" |} in
  let r2 := {| description := "x"; id := 2; name := "alpha"; propertiesCount := 3;
               status := "paid" |} in
  filter_callback "Lp" [] r1 = filter_callback "Lp" [] r2.
Proof.
  intros r1 r2.
  apply (proj2 (filter_ignores_case "Lp" [])); reflexivity.
Defined.

End FilterFacts.

(** ** Pages *)

Section Pages.

Import Contributions TableControls.

Lemma firstn_add {A : Type} (a b : nat) (l : list A) :
  firstn (a + b) l = (firstn a l ++ firstn b (skipn a l))%list.
Proof.
  revert l. induction a as [|a IH]; intro l; simpl; [reflexivity|].
  destruct l as [|x l]; simpl.
  - now rewrite firstn_nil.
  - now rewrite IH.
Qed.

Lemma slice_nonneg {A : Type} (l : list A) (lo n : Z) :
  0 <= lo -> 0 <= n ->
  JS.slice l lo (lo + n) = firstn (Z.to_nat n) (skipn (Z.to_nat lo) l).
Proof.
  intros Hlo Hn. rewrite slice_index_range by lia.
  unfold Spec.index_range. rewrite index_range_from_before by lia.
  now replace (lo + n - lo) with n by ring; rewrite Z.sub_0_r.
Qed.

Lemma NoDup_firstn {A : Type} (n : nat) (l : list A) : NoDup l -> NoDup (firstn n l).
Proof.
  intro H. rewrite <- (firstn_skipn n l) in H. now apply NoDup_app_remove_r in H.
Qed.

Lemma NoDup_skipn {A : Type} (n : nat) (l : list A) : NoDup l -> NoDup (skipn n l).
Proof.
  intro H. rewrite <- (firstn_skipn n l) in H. now apply NoDup_app_remove_l in H.
Qed.

Lemma sorted_NoDup v : NoDup (data v) -> NoDup (sorted v).
Proof.
  intro H.
  assert (F : NoDup (filtered v)) by (rewrite filtered_keepb; now apply NoDup_filter).
  assert (S : NoDup (sortBy (filtered v) (columnAccessor (sortStatus v)))).
  { destruct (sortBy_StableSortAsc (columnAccessor (sortStatus v)) (filtered v))
      as [P _].
    eapply Permutation_NoDup; [exact P | exact F]. }
  unfold sorted. destruct (direction (sortStatus v)); [exact S | now apply NoDup_rev].
Qed.

Lemma paginated_set_page v p :
  0 <= p - 1 -> 0 <= pageSize v ->
  paginated (set_page p v)
  = firstn (Z.to_nat (pageSize v)) (skipn (Z.to_nat ((p - 1) * pageSize v)) (sorted v)).
Proof.
  intros Hp Hs. unfold paginated.
  change (sorted (set_page p v)) with (sorted v).
  cbn [page pageSize set_page]. apply slice_nonneg; nia.
Qed.

(** The pages 1 to n, one after the other, are the first n * pageSize rows of
    the sorted list: they are the whole list once n pages are enough, and a
    record of a data set without repetition is on one page only, once. *)
Theorem pages_partition_the_sorted_list (v : View) (n : nat) :
  0 < pageSize v ->
  List.concat (pages n v) = firstn (n * Z.to_nat (pageSize v)) (sorted v)
  /\ (Z.of_nat (List.length (sorted v)) <= Z.of_nat n * pageSize v ->
      List.concat (pages n v) = sorted v)
  /\ (NoDup (data v) -> NoDup (List.concat (pages n v))).
Proof.
  intro Hs.
  assert (E : List.concat (pages n v) = firstn (n * Z.to_nat (pageSize v)) (sorted v)).
  { unfold pages. induction n as [|n IH].
    - reflexivity.
    - rewrite seq_S, map_app, concat_app, IH. cbn [map List.concat Nat.add].
      rewrite app_nil_r, paginated_set_page by lia.
      replace (Z.to_nat ((Z.of_nat (S n) - 1) * pageSize v))
        with (n * Z.to_nat (pageSize v))%nat by nia.
      rewrite <- firstn_add. f_equal. lia. }
  split; [exact E|]. split.
  - intro Hl. rewrite E. apply firstn_all2. nia.
  - intro Hd. rewrite E. apply NoDup_firstn. now apply sorted_NoDup.
Qed.

Lemma pages_partition_the_sorted_list_witness :
  let rec_ n s := {| description := ""; id := n; name := s;
                     propertiesCount := 0; status := "pending" |} in
  let d := [rec_ 3 "c"; rec_ 1 "a"; rec_ 2 "b"] in
  let v := {| data := d; page := 1; pageSize := 2; records := [];
              sortStatus := {| columnAccessor := acc_name; direction := asc |};
              debouncedQuery := ""; selectedStatuses := [] |} in
  List.concat (pages 2 v) = [rec_ 1 "a"; rec_ 2 "b"; rec_ 3 "c"].
Proof.
  intros rec_ d v.
  destruct (pages_partition_the_sorted_list v 2) as [_ [H _]]; [reflexivity|].
  rewrite H; [reflexivity | simpl; lia].
Defined.

Lemma paginated_length (v : View) :
  0 <= pageSize v -> 1 <= page v ->
  Z.of_nat (List.length (paginated v))
  = Z.max 0 (Z.min (pageSize v)
                   (Z.of_nat (List.length (sorted v)) - (page v - 1) * pageSize v)).
Proof.
  intros Hs Hp. unfold paginated. rewrite slice_nonneg by nia.
  rewrite length_firstn, length_skipn. nia.
Qed.

(** The number of rows of a page: a full page, the rest of the list on the
    last page, nothing past the end; and page 0 has no rows. *)
Theorem page_length (v : View) :
  0 <= pageSize v ->
  (1 <= page v ->
   Z.of_nat (List.length (paginated v))
   = Z.max 0 (Z.min (pageSize v)
                    (Z.of_nat (List.length (sorted v)) - (page v - 1) * pageSize v)))
  /\ (page v = 0 -> paginated v = []).
Proof.
  intro Hs. split.
  - intro Hp. now apply paginated_length.
  - intro Hp. unfold paginated, JS.slice. rewrite Hp.
    match goal with |- firstn ?k _ = _ => replace k with O end; [reflexivity|].
    destruct (Z.ltb_spec ((0 - 1) * pageSize v) 0),
             (Z.ltb_spec ((0 - 1) * pageSize v + pageSize v) 0); lia.
Qed.

Lemma page_length_witness :
  let rec_ n s := {| description := ""; id := n; name := s;
                     propertiesCount := 0; status := "pending" |} in
  let v := {| data := [rec_ 3 "c"; rec_ 1 "a"; rec_ 2 "b"]; page := 2; pageSize := 2;
              records := [];
              sortStatus := {| columnAccessor := acc_name; direction := asc |};
              debouncedQuery := ""; selectedStatuses := [] |} in
  Z.of_nat (List.length (paginated v)) = 1.
Proof.
  intros rec_ v.
  destruct (page_length v) as [H _]; [simpl; lia|].
  rewrite H; [reflexivity | simpl; lia].
Defined.

End Pages.

(** ** The controls of the table *)

Section Controls.

Import Contributions TableControls.

Lemma set_records_same v : set_records (records v) v = v.
Proof. now destruct v. Qed.

(** A state update that leaves the page size alone settles within two
    commits, with the rows recomputed from the new state. *)
Lemma settle_update (v v0 : View) (fuel : nat) :
  pageSize v0 = pageSize v -> records v0 = records v ->
  records v = paginated v -> (2 <= fuel)%nat ->
  settle fuel (Some v) v0 = Some (set_records (paginated v0) v0).
Proof.
  intros Hs Hr Hv Hf. destruct fuel as [|[|fuel]]; try lia.
  cbn [settle].
  assert (C : commit (Some v) v0 =
              if records_deps_changed (Some v) v0
              then set_records (paginated v0) v0 else v0).
  { unfold commit. simpl. now rewrite Hs, Z.eqb_refl. }
  rewrite C. destruct (records_deps_changed (Some v) v0) eqn:D.
  - destruct (View_eq_dec (set_records (paginated v0) v0) v0) as [E|_].
    + now rewrite E.
    + rewrite (commit_same_deps v0 _ (same_deps_set_records _ v0)).
      now destruct (View_eq_dec _ _).
  - apply records_deps_changed_false in D.
    destruct (View_eq_dec v0 v0) as [_|N]; [|congruence].
    rewrite <- (paginated_same_deps v v0 D), <- Hv, <- Hr.
    now rewrite set_records_same.
Qed.

(** From settled rows, a change of page ends with the rows of that page and
    leaves every other input as it was. *)
Theorem page_change_shows_that_page (v : View) (p : Z) (fuel : nat) :
  records v = paginated v -> (2 <= fuel)%nat ->
  onPageChange fuel p v
  = Some (set_records (paginated (set_page p v)) (set_page p v)).
Proof.
  intros Hv Hf. unfold onPageChange.
  destruct (Z.eqb_spec p (page v)) as [E|_].
  - subst p. assert (Ev : set_page (page v) v = v) by now destruct v.
    now rewrite Ev, <- Hv, set_records_same.
  - now apply settle_update.
Qed.

Lemma page_change_shows_that_page_witness :
  let rec_ n s := {| description := ""; id := n; name := s;
                     propertiesCount := 0; status := "pending" |} in
  let d := [rec_ 3 "c"; rec_ 1 "a"; rec_ 2 "b"] in
  let v := {| data := d; page := 1; pageSize := 2;
              records := [rec_ 1 "a"; rec_ 2 "b"];
              sortStatus := {| columnAccessor := acc_name; direction := asc |};
              debouncedQuery := ""; selectedStatuses := [] |} in
  option_map records (onPageChange 2 2 v) = Some [rec_ 3 "c"].
Proof.
  intros rec_ d v.
  rewrite (page_change_shows_that_page v 2 2); [reflexivity | reflexivity | lia].
Defined.

(** From settled rows, a change of the status filter, of the query or of the
    sort order recomputes the rows and keeps the page index; the rows are
    then empty whenever the list that is left ends before that page. *)
Theorem filter_and_sort_changes_keep_the_page (v : View) (fuel : nat) :
  records v = paginated v -> (2 <= fuel)%nat ->
  (forall sel,
      let v0 := set_selectedStatuses sel v in
      onSelectedStatusesChange fuel sel v = Some (set_records (paginated v0) v0))
  /\ (forall q,
        let v0 := set_debouncedQuery q v in
        onDebouncedQuery fuel q v = Some (set_records (paginated v0) v0))
  /\ (forall ss,
        let v0 := set_sortStatus ss v in
        onSortStatusChange fuel ss v = Some (set_records (paginated v0) v0))
  /\ (forall sel v',
        onSelectedStatusesChange fuel sel v = Some v' ->
        1 <= page v -> 0 <= pageSize v ->
        Z.of_nat (List.length (filtered (set_selectedStatuses sel v)))
          <= (page v - 1) * pageSize v ->
        page v' = page v /\ records v' = []).
Proof.
  intros Hv Hf.
  assert (S : forall sel,
             onSelectedStatusesChange fuel sel v
             = Some (set_records (paginated (set_selectedStatuses sel v))
                                 (set_selectedStatuses sel v))).
  { intro sel. now apply settle_update. }
  split; [exact S|]. split; [intro q; now apply settle_update|].
  split; [intro ss; now apply settle_update|].
  intros sel v' H Hp Hs Hl. rewrite S in H. injection H as <-.
  split; [reflexivity|]. cbn [records set_records].
  apply length_zero_iff_nil. apply Nat2Z.inj.
  rewrite (paginated_length (set_selectedStatuses sel v) Hs Hp).
  cbn [page pageSize set_selectedStatuses].
  assert (Z.of_nat (List.length (sorted (set_selectedStatuses sel v)))
          = Z.of_nat (List.length (filtered (set_selectedStatuses sel v)))).
  { f_equal. unfold sorted.
    destruct (sortBy_StableSortAsc
                (columnAccessor (sortStatus (set_selectedStatuses sel v)))
                (filtered (set_selectedStatuses sel v))) as [P _].
    apply Permutation_length in P.
    destruct (direction _); [|rewrite length_rev]; now symmetry. }
  simpl. lia.
Qed.

Lemma filter_and_sort_changes_keep_the_page_witness :
  let rec_ n s st := {| description := ""; id := n; name := s;
                        propertiesCount := 0; status := st |} in
  let d := [rec_ 1 "a" "paid"; rec_ 2 "b" "pending"; rec_ 3 "c" "pending"] in
  let v := {| data := d; page := 2; pageSize := 2; records := [rec_ 3 "c" "pending"];
              sortStatus := {| columnAccessor := acc_name; direction := asc |};
              debouncedQuery := ""; selectedStatuses := [] |} in
  exists v', onSelectedStatusesChange 2 ["paid"] v = Some v'
             /\ page v' = 2 /\ records v' = []
             /\ filtered v' = [rec_ 1 "a" "paid"].
Proof.
  intros rec_ d v.
  destruct (filter_and_sort_changes_keep_the_page v 2 eq_refl (le_n 2))
    as (S & _ & _ & E).
  eexists. split; [apply S|].
  destruct (E ["paid"] _ (S ["paid"])) as [Hp Hr]; [simpl; lia | simpl; lia | simpl; lia |].
  split; [exact Hp|]. split; [exact Hr | reflexivity].
Defined.

(** The first render settles within two commits: page 1, five rows per page,
    and the first five records by ascending name on display. *)
Theorem mount_shows_first_page_by_name (d : list Contribution) (fuel : nat) :
  (2 <= fuel)%nat ->
  mount fuel d
  = Some {| data := d; page := 1; pageSize := 5;
            records := firstn 5 (sort_by name String.leb d);
            sortStatus := {| columnAccessor := acc_name; direction := asc |};
            debouncedQuery := ""; selectedStatuses := [] |}.
Proof.
  intro Hf. destruct fuel as [|[|fuel]]; try lia.
  unfold mount. cbn [settle].
  assert (P : paginated (initial d) = firstn 5 (sort_by name String.leb d)).
  { unfold paginated. cbn [page pageSize initial nth PAGE_SIZES].
    change ((1 - 1) * 5) with 0. rewrite (slice_nonneg _ 0 5) by lia.
    reflexivity. }
  assert (C : commit None (initial d) = set_records (paginated (initial d)) (initial d))
    by reflexivity.
  rewrite C, P.
  destruct (View_eq_dec _ (initial d)) as [E|_].
  - rewrite <- E at 1. reflexivity.
  - rewrite (commit_same_deps (initial d) _ (same_deps_set_records _ (initial d))).
    now destruct (View_eq_dec _ _).
Qed.

Lemma mount_shows_first_page_by_name_witness :
  let rec_ n s := {| description := ""; id := n; name := s;
                     propertiesCount := 0; status := "pending" |} in
  option_map records (mount 2 [rec_ 2 "b"; rec_ 1 "a"]) = Some [rec_ 1 "a"; rec_ 2 "b"].
Proof.
  intro rec_. rewrite mount_shows_first_page_by_name by lia. reflexivity.
Defined.

(** With settled rows, the total handed to the table is the number of
    records when no filter is active, and otherwise the number of rows on
    display, which is at most the page size. *)
Theorem settled_totalRecords (v : View) :
  records v = paginated v -> 0 <= pageSize v ->
  (debouncedQuery v = "" -> selectedStatuses v = [] ->
   totalRecords v = Z.of_nat (List.length (data v)))
  /\ (debouncedQuery v <> "" \/ selectedStatuses v <> [] ->
      totalRecords v = Z.of_nat (List.length (paginated v))
      /\ totalRecords v <= pageSize v).
Proof.
  intros Hv Hs. split.
  - intros Hq Hsel. unfold totalRecords. now rewrite Hq, Hsel.
  - intros H.
    assert (T : totalRecords v = Z.of_nat (List.length (records v))).
    { apply totalRecords_filter_active. destruct H as [H|H]; [left|now right].
      destruct (debouncedQuery v); [congruence|reflexivity]. }
    rewrite T, Hv. split; [reflexivity|].
    unfold paginated. now apply slice_length.
Qed.

Lemma settled_totalRecords_witness :
  let rec_ n s := {| description := ""; id := n; name := s;
                     propertiesCount := 0; status := "pending" |} in
  let d := [rec_ 1 "a"; rec_ 2 "b"; rec_ 3 "c"] in
  let v := {| data := d; page := 1; pageSize := 2;
              records := [rec_ 1 "a"; rec_ 2 "b"];
              sortStatus := {| columnAccessor := acc_name; direction := asc |};
              debouncedQuery := ""; selectedStatuses := ["pending"] |} in
  totalRecords v <= 2.
Proof.
  intros rec_ d v.
  destruct (settled_totalRecords v eq_refl) as [_ H]; [simpl; lia|].
  apply H. right. discriminate.
Defined.

End Controls.

(** ** More on the progress button *)

Section ProgressButtonMore.

Import Contributions TableControls.

(** In every state the button reaches, the interval is scheduled exactly
    while the run is in progress, [running] and [done] are never both set,
    the progress is a multiple of the increment, a finished run stands at
    100, and the label reads "Deuda calculada" exactly when the run is
    finished. *)
Theorem button_timer_only_while_running (es : list ButtonEvent) :
  let s := button_run es in
  interval_active s = running s
  /\ running s && done s = false
  /\ (exists k, progress s = INCREMENT * k)
  /\ (done s = true -> progress s = 100)
  /\ (buttonText s = DeudaCalculada <-> done s = true)
  /\ (buttonText s = BuscarDeuda <-> disabled s = false).
Proof.
  intro s. destruct (button_run_inv es) as [H | [ (Hr & Hd & Hi & Hp & k & Hk) | H ] ];
    fold s in H || idtac.
  - rewrite H. repeat split; try reflexivity; try discriminate. now exists 0.
  - fold s in Hr, Hd, Hi, Hk. unfold buttonText, disabled.
    rewrite Hr, Hd, Hi. repeat split; try reflexivity; try discriminate.
    now exists k.
  - rewrite H. repeat split; try reflexivity; try discriminate. now exists 50.
Qed.

Lemma step_running_click k : button_step (running_at k) Click = running_at k.
Proof. reflexivity. Qed.

Lemma step_running_tick (j : nat) :
  button_step (running_at (Z.of_nat j)) Tick
  = if (j <? 50)%nat then running_at (Z.of_nat (S j)) else button_done.
Proof.
  unfold button_step, running_at, interval_callback, rerender, INCREMENT.
  cbn [interval_active progress running done].
  destruct (Nat.ltb_spec j 50); destruct (Z.geb_spec (2 * Z.of_nat j) 100);
    try lia; cbn [running Bool.eqb].
  - f_equal. lia.
  - reflexivity.
Qed.

Lemma fold_from_done es : fold_left button_step es button_done = button_done.
Proof. induction es as [|[] es IH]; simpl; [reflexivity | exact IH | exact IH]. Qed.

Lemma fold_from_running es :
  forall j, (j <= 50)%nat ->
    fold_left button_step es (running_at (Z.of_nat j))
    = let k := (j + List.length (filter is_tick es))%nat in
      if (k <=? 50)%nat then running_at (Z.of_nat k) else button_done.
Proof.
  induction es as [|[] es IH]; intros j Hj; cbn [fold_left filter is_tick List.length].
  - cbv zeta. rewrite Nat.add_0_r. destruct (Nat.leb_spec j 50); [reflexivity|lia].
  - rewrite step_running_click. now apply IH.
  - rewrite step_running_tick. destruct (Nat.ltb_spec j 50).
    + rewrite IH by lia. cbv zeta.
      replace (S j + List.length (filter is_tick es))%nat
        with (j + S (List.length (filter is_tick es)))%nat by lia.
      reflexivity.
    + rewrite fold_from_done. cbv zeta.
      destruct (Nat.leb_spec (j + S (List.length (filter is_tick es))) 50);
        [lia|reflexivity].
Qed.

(** The state of the button is a function of the number of ticks since the
    first click alone: later clicks change nothing, ticks before the first
    click are lost, the progress is the increment times the number of ticks
    up to 50 ticks, and from the 51st tick on the run is finished. *)
Theorem button_state_counts_ticks (es : list ButtonEvent) :
  button_run es =
  match ticks_after_click es with
  | None => button_initial
  | Some k => if (k <=? 50)%nat then running_at (Z.of_nat k) else button_done
  end.
Proof.
  unfold button_run. induction es as [|[] es IH]; cbn [fold_left ticks_after_click].
  - reflexivity.
  - change (button_step button_initial Click) with (running_at (Z.of_nat 0)).
    now rewrite fold_from_running by lia.
  - exact IH.
Qed.

End ProgressButtonMore.

(** * Further properties of the edit drawer *)

Section DrawerMore.

Import EditProductDrawer DrawerEvents.

(** An update that the server accepts: one PUT request, the success
    notification, then the close callback and then the refresh callback;
    the overlay is taken down and the form keeps its values. *)
Theorem update_success_sequence
  (pr : Props) (a : Auth) (vals : FormValues) (env : Env) (s : State)
  (p : IProduct) (r : Response) (j : Json) :
  product pr = Some p -> isCreator s = true -> canEditProduct a = true ->
  fetch env (DrawerSpec.update_request a p vals) = Resolved r ->
  ok r = true -> json r = inr j ->
  run (handleSubmit pr a vals) env s
  = (not_loading s,
     EvFetch (DrawerSpec.update_request a p vals) :: success_update :: callbacks pr).
Proof.
  intros Hp Hc He Hf Hok Hj.
  rewrite (handleSubmit_allowed pr a vals env s p Hp Hc He). cbv zeta.
  now rewrite Hf, Hj, Hok.
Qed.

Lemma update_success_sequence_witness :
  let p := {| id := "7"; createdById := Some "ana"; p_title := Some "Lamp";
              p_description := None; p_price := Some 10; p_quantityInStock := None;
              p_sku := None; p_isActive := Some true; p_status := None;
              p_categoryId := None |} in
  let pr := {| product := Some p; onProductUpdated := true; onClose := true |} in
  let a := {| user_id := Some "ana"; accessToken := "t";
              permissions := Some ["Permissions.Products.Edit"] |} in
  let env := {| window_confirm := fun _ => true;
                fetch := fun _ => Resolved {| ok := true; json := inr (JsonWith None) |} |} in
  let s := product_effect pr a initial in
  snd (run (handleSubmit pr a (values s)) env s)
  = [EvFetch (DrawerSpec.update_request a p (values s)); success_update;
     EvClose; EvProductUpdated].
Proof.
  intros p pr a env s.
  rewrite (update_success_sequence pr a (values s) env s p _ (JsonWith None)
             eq_refl eq_refl eq_refl eq_refl eq_refl eq_refl).
  reflexivity.
Defined.

(** The update reads the body before it looks at the status, the delete
    reads it only after a failure: a 2xx answer whose body is not JSON is an
    error for the update (error notification, no callback) and a success for
    the delete. *)
Theorem unparseable_2xx_update_fails_delete_succeeds
  (pr : Props) (a : Auth) (vals : FormValues) (env : Env) (s : State)
  (p : IProduct) (r : Response) (t : Thrown) :
  product pr = Some p -> isCreator s = true ->
  ok r = true -> json r = inl t ->
  (canEditProduct a = true ->
   fetch env (DrawerSpec.update_request a p vals) = Resolved r ->
   run (handleSubmit pr a vals) env s
   = (not_loading s,
      [EvFetch (DrawerSpec.update_request a p vals);
       DrawerSpec.error_notification (message_of t "Failed to update product")]))
  /\ (window_confirm env delete_question = true ->
      fetch env (DrawerSpec.delete_request a p) = Resolved r ->
      run (handleDelete pr a) env s
      = (not_loading s,
         EvConfirm delete_question true :: EvFetch (DrawerSpec.delete_request a p)
         :: success_delete :: callbacks pr)).
Proof.
  intros Hp Hc Hok Hj. split.
  - intros He Hf. rewrite (handleSubmit_allowed pr a vals env s p Hp Hc He).
    cbv zeta. now rewrite Hf, Hj.
  - intros Hq Hf. rewrite (handleDelete_confirmed pr a env s p Hp Hc Hq).
    cbv zeta. now rewrite Hf, Hok.
Qed.

Lemma unparseable_2xx_update_fails_delete_succeeds_witness :
  let p := {| id := "7"; createdById := Some "ana"; p_title := Some "Lamp";
              p_description := None; p_price := Some 10; p_quantityInStock := None;
              p_sku := None; p_isActive := Some true; p_status := None;
              p_categoryId := None |} in
  let pr := {| product := Some p; onProductUpdated := true; onClose := true |} in
  let a := {| user_id := Some "ana"; accessToken := "t";
              permissions := Some ["Permissions.Products.Edit"] |} in
  let r := {| ok := true; json := inl (ErrorObject "Unexpected end of JSON input") |} in
  let env := {| window_confirm := fun _ => true; fetch := fun _ => Resolved r |} in
  let s := product_effect pr a initial in
  snd (run (handleSubmit pr a (values s)) env s)
  = [EvFetch (DrawerSpec.update_request a p (values s));
     DrawerSpec.error_notification "Unexpected end of JSON input"]
  /\ snd (run (handleDelete pr a) env s)
     = [EvConfirm delete_question true; EvFetch (DrawerSpec.delete_request a p);
        success_delete; EvClose; EvProductUpdated].
Proof.
  intros p pr a r env s.
  destruct (unparseable_2xx_update_fails_delete_succeeds pr a (values s) env s p r
              (ErrorObject "Unexpected end of JSON input")
              eq_refl eq_refl eq_refl eq_refl) as [H1 H2].
  rewrite (H1 eq_refl eq_refl), (H2 eq_refl eq_refl). split; reflexivity.
Defined.

(** A delete that fails (transport error or non-2xx response) shows one error
    notification, with the thrown Error's message, the server's error message
    or the generic one; no callback runs and the overlay is taken down. *)
Theorem failed_delete_notifies_and_keeps_editor
  (pr : Props) (a : Auth) (env : Env) (s : State) (p : IProduct) :
  product pr = Some p -> isCreator s = true ->
  window_confirm env delete_question = true ->
  let o := fetch env (DrawerSpec.delete_request a p) in
  DrawerSpec.failed o ->
  run (handleDelete pr a) env s
  = (not_loading s,
     [EvConfirm delete_question true; EvFetch (DrawerSpec.delete_request a p);
      DrawerSpec.error_notification (delete_error_message o)])
  /\ count is_close (snd (run (handleDelete pr a) env s)) = 0%nat
  /\ count is_refresh (snd (run (handleDelete pr a) env s)) = 0%nat.
Proof.
  intros Hp Hc Hq o Hf.
  assert (E : run (handleDelete pr a) env s
              = (not_loading s,
                 [EvConfirm delete_question true;
                  EvFetch (DrawerSpec.delete_request a p);
                  DrawerSpec.error_notification (delete_error_message o)])).
  { rewrite (handleDelete_confirmed pr a env s p Hp Hc Hq). cbv zeta. fold o.
    f_equal. f_equal. f_equal.
    destruct o as [t|r]; [reflexivity|]. simpl in Hf. rewrite Hf.
    unfold delete_error_message. now destruct (json r). }
  rewrite E. repeat split.
Qed.

Lemma failed_delete_notifies_and_keeps_editor_witness :
  let p := {| id := "7"; createdById := Some "ana"; p_title := Some "Lamp";
              p_description := None; p_price := Some 10; p_quantityInStock := None;
              p_sku := None; p_isActive := Some true; p_status := None;
              p_categoryId := None |} in
  let pr := {| product := Some p; onProductUpdated := true; onClose := true |} in
  let a := {| user_id := Some "ana"; accessToken := "t"; permissions := None |} in
  let env := {| window_confirm := fun _ => true;
                fetch := fun _ => Resolved {| ok := false;
                                              json := inr (JsonWith (Some "In use")) |} |} in
  let s := product_effect pr a initial in
  snd (run (handleDelete pr a) env s)
  = [EvConfirm delete_question true; EvFetch (DrawerSpec.delete_request a p);
     DrawerSpec.error_notification "In use"].
Proof.
  intros p pr a env s.
  destruct (failed_delete_notifies_and_keeps_editor pr a env s p
              eq_refl eq_refl eq_refl eq_refl) as [H _].
  rewrite H. reflexivity.
Defined.

(** The edit permission guards the update only: a creator without it submits
    in vain (no request, no notification, no change of state), and can still
    delete the product. *)
Theorem delete_needs_no_edit_permission
  (pr : Props) (a : Auth) (vals : FormValues) (env : Env) (s : State) (p : IProduct) :
  product pr = Some p -> isCreator s = true -> canEditProduct a = false ->
  run (handleSubmit pr a vals) env s = (s, [])
  /\ (window_confirm env delete_question = true ->
      count is_fetch (snd (run (handleDelete pr a) env s)) = 1%nat
      /\ In (EvFetch (DrawerSpec.delete_request a p))
            (snd (run (handleDelete pr a) env s))).
Proof.
  intros Hp Hc He. split.
  - apply handleSubmit_guarded. auto.
  - intro Hq. rewrite (handleDelete_confirmed pr a env s p Hp Hc Hq). cbn [snd].
    split; [|right; now left].
    unfold count. cbn [filter is_fetch List.length]. f_equal.
    destruct (fetch env _) as [t|r]; [reflexivity|].
    destruct (ok r).
    + destruct (onClose pr), (onProductUpdated pr); reflexivity.
    + destruct (json r); reflexivity.
Qed.

Lemma delete_needs_no_edit_permission_witness :
  let p := {| id := "7"; createdById := Some "ana"; p_title := Some "Lamp";
              p_description := None; p_price := Some 10; p_quantityInStock := None;
              p_sku := None; p_isActive := Some true; p_status := None;
              p_categoryId := None |} in
  let pr := {| product := Some p; onProductUpdated := true; onClose := true |} in
  let a := {| user_id := Some "ana"; accessToken := "t"; permissions := Some [] |} in
  let env := {| window_confirm := fun _ => true;
                fetch := fun _ => Resolved {| ok := true; json := inr (JsonWith None) |} |} in
  let s := product_effect pr a initial in
  run (handleSubmit pr a (values s)) env s = (s, [])
  /\ count is_fetch (snd (run (handleDelete pr a) env s)) = 1%nat.
Proof.
  intros p pr a env s.
  destruct (delete_needs_no_edit_permission pr a (values s) env s p
              eq_refl eq_refl eq_refl) as [H1 H2].
  split; [exact H1 | exact (proj1 (H2 eq_refl))].
Defined.

(** Without a product nothing happens, whatever the state holds: the effect
    leaves the state alone, a submit and a delete return at once, and the
    delete does not even ask for confirmation. *)
Theorem no_product_no_action
  (pr : Props) (a : Auth) (vals : FormValues) (env : Env) (s : State) :
  product pr = None ->
  product_effect pr a s = s
  /\ run (handleSubmit pr a vals) env s = (s, [])
  /\ run (handleDelete pr a) env s = (s, []).
Proof.
  intro Hp. split; [|split].
  - unfold product_effect. now rewrite Hp.
  - apply handleSubmit_guarded. auto.
  - apply handleDelete_guarded. auto.
Qed.

Lemma no_product_no_action_witness :
  let pr := {| product := None; onProductUpdated := true; onClose := true |} in
  let a := {| user_id := Some "ana"; accessToken := "t";
              permissions := Some ["Permissions.Products.Edit"] |} in
  let env := {| window_confirm := fun _ => true;
                fetch := fun _ => Rejected NotAnError |} in
  let s := {| loading := false; isCreator := true; values := initialValues |} in
  run (handleDelete pr a) env s = (s, []).
Proof.
  intros pr a env s.
  exact (proj2 (proj2 (no_product_no_action pr a initialValues env s eq_refl))).
Defined.

End DrawerMore.

Section DrawerDiscipline.

Import EditProductDrawer DrawerEvents.

Ltac count_events :=
  unfold count, callbacks;
  repeat match goal with
         | |- context [if ?b then _ else _] => destruct b
         end;
  cbn; repeat first [split | intro];
  try reflexivity; try assumption; try lia; try discriminate.

(** Whatever the answer of the server, a submit never alters the form values
    or [isCreator], sends at most one request, shows exactly one notification
    per request and none without one, and runs each callback at most once;
    a submit that sends nothing leaves the whole state as it was, and one
    that sends a request ends with the overlay taken down. *)
Theorem submit_event_discipline
  (pr : Props) (a : Auth) (vals : FormValues) (env : Env) (s : State) :
  let s' := fst (run (handleSubmit pr a vals) env s) in
  let evs := snd (run (handleSubmit pr a vals) env s) in
  values s' = values s /\ isCreator s' = isCreator s
  /\ (count is_fetch evs <= 1)%nat
  /\ count is_notify evs = count is_fetch evs
  /\ (count is_close evs <= 1)%nat /\ (count is_refresh evs <= 1)%nat
  /\ (count is_fetch evs = 0%nat -> s' = s /\ evs = [])
  /\ (count is_fetch evs = 1%nat -> loading s' = false).
Proof.
  intros s' evs. subst s' evs.
  destruct (product pr) as [p|] eqn:Hp;
    [destruct (isCreator s) eqn:Hc; [destruct (canEditProduct a) eqn:He|]|].
  - rewrite (handleSubmit_allowed pr a vals env s p Hp Hc He). cbv zeta.
    cbn [fst snd].
    destruct (fetch env _) as [t|r]; [count_events|].
    destruct (json r) as [t|j]; [count_events|].
    destruct (ok r); count_events.
  - rewrite handleSubmit_guarded by auto. count_events.
  - rewrite handleSubmit_guarded by auto. count_events.
  - rewrite handleSubmit_guarded by auto. count_events.
Qed.

(** The same for a delete: at most one request and one notification per
    request; a delete that is declined or not allowed sends nothing and
    leaves the state as it was. *)
Theorem delete_event_discipline (pr : Props) (a : Auth) (env : Env) (s : State) :
  let s' := fst (run (handleDelete pr a) env s) in
  let evs := snd (run (handleDelete pr a) env s) in
  values s' = values s /\ isCreator s' = isCreator s
  /\ (count is_fetch evs <= 1)%nat
  /\ count is_notify evs = count is_fetch evs
  /\ (count is_close evs <= 1)%nat /\ (count is_refresh evs <= 1)%nat
  /\ (count is_fetch evs = 0%nat -> s' = s)
  /\ (count is_fetch evs = 1%nat -> loading s' = false)
  /\ (window_confirm env delete_question = false -> count is_fetch evs = 0%nat).
Proof.
  intros s' evs. subst s' evs.
  destruct (product pr) as [p|] eqn:Hp;
    [destruct (isCreator s) eqn:Hc;
     [destruct (window_confirm env delete_question) eqn:Hq|]|].
  - rewrite (handleDelete_confirmed pr a env s p Hp Hc Hq). cbv zeta.
    cbn [fst snd].
    destruct (fetch env _) as [t|r]; [count_events|].
    destruct (ok r); [count_events|].
    destruct (json r) as [t|j]; count_events.
  - rewrite (handleDelete_declined pr a env s p Hp Hc Hq). count_events.
  - rewrite handleDelete_guarded by auto. count_events.
  - rewrite handleDelete_guarded by auto. count_events.
Qed.

(** Loading a product into the form: a field that is present is taken as it
    is and a missing one gets its default, but for the status, which is never
    0 in the form: a status 0 loads as 1.  A missing [isActive] loads as
    false.  The loading flag is left alone. *)
Theorem product_effect_loads_fields (pr : Props) (a : Auth) (s : State) (p : IProduct) :
  product pr = Some p ->
  let s' := product_effect pr a s in
  let v := values s' in
  title v = match p_title p with Some t => t | None => "" end
  /\ description v = match p_description p with Some t => t | None => "" end
  /\ price v = match p_price p with Some n => n | None => 0 end
  /\ quantityInStock v = match p_quantityInStock p with Some n => n | None => 0 end
  /\ sku v = match p_sku p with Some t => t | None => "" end
  /\ isActive v = match p_isActive p with Some b => b | None => false end
  /\ categoryId v = match p_categoryId p with Some t => t | None => "" end
  /\ status v = match p_status p with Some 0 | None => 1 | Some n => n end
  /\ status v <> 0
  /\ loading s' = loading s
  /\ isCreator s' = strict_eq (user_id a) (createdById p).
Proof.
  intro Hp. unfold product_effect. rewrite Hp. cbn.
  unfold or_string, or_number, or_bool.
  repeat split.
  - now destruct (p_title p) as [[|]|].
  - now destruct (p_description p) as [[|]|].
  - destruct (p_price p) as [n|]; [|reflexivity]. now destruct (Z.eqb_spec n 0).
  - destruct (p_quantityInStock p) as [n|]; [|reflexivity].
    now destruct (Z.eqb_spec n 0).
  - now destruct (p_sku p) as [[|]|].
  - now destruct (p_isActive p) as [[|]|].
  - now destruct (p_categoryId p) as [[|]|].
  - destruct (p_status p) as [n|]; [|reflexivity]. now destruct n.
  - destruct (p_status p) as [n|]; [|discriminate].
    now destruct (Z.eqb_spec n 0).
Qed.

Lemma product_effect_loads_fields_witness :
  let p := {| id := "7"; createdById := Some "ana"; p_title := Some "";
              p_description := None; p_price := Some 0; p_quantityInStock := None;
              p_sku := None; p_isActive := None; p_status := Some 0;
              p_categoryId := None |} in
  let pr := {| product := Some p; onProductUpdated := true; onClose := true |} in
  let a := {| user_id := Some "ana"; accessToken := "t"; permissions := None |} in
  status (values (product_effect pr a initial)) = 1
  /\ isActive (values (product_effect pr a initial)) = false.
Proof.
  intros p pr a.
  destruct (product_effect_loads_fields pr a initial p eq_refl)
    as (_ & _ & _ & _ & _ & H6 & _ & H8 & _).
  split; [exact H8 | exact H6].
Defined.

End DrawerDiscipline.

(** * The product card *)

Section Card.

Import EditProductDrawer.

(** The card and the drawer agree on who the creator is: for the same user
    and product, the drawer's [isCreator] after its effect is the card's; the
    Edit button hands over the card's own product and only for the creator,
    and where the button is disabled a submit and a delete in the drawer
    would do nothing. *)
Theorem card_and_drawer_agree_on_creator
  (a : Auth) (d : ProductsCard.Data) (pr : Props) (s0 : State) (onEdit : bool) :
  product pr = Some (ProductsCard.base d) ->
  let s := product_effect pr a s0 in
  isCreator s = ProductsCard.isCreator (user_id a) d
  /\ (forall ev, In ev (ProductsCard.click_edit (user_id a) onEdit d) ->
        ev = ProductsCard.EvEdit d /\ isCreator s = true /\ onEdit = true)
  /\ (ProductsCard.edit_disabled (user_id a) d = true ->
      ProductsCard.click_edit (user_id a) onEdit d = []
      /\ forall vals env,
           run (handleSubmit pr a vals) env s = (s, [])
           /\ run (handleDelete pr a) env s = (s, [])).
Proof.
  intros Hp s.
  assert (E : isCreator s = ProductsCard.isCreator (user_id a) d).
  { subst s. unfold product_effect. now rewrite Hp. }
  split; [exact E|]. split.
  - intros ev H. unfold ProductsCard.click_edit, ProductsCard.edit_disabled in H.
    rewrite <- E in H. destruct (isCreator s); simpl in H; [|destruct H].
    destruct onEdit; simpl in H; [|destruct H].
    destruct H as [<-|[]]. auto.
  - intro Hd. unfold ProductsCard.click_edit. rewrite Hd. split; [reflexivity|].
    unfold ProductsCard.edit_disabled in Hd. rewrite <- E in Hd.
    apply negb_true_iff in Hd. intros vals env. split.
    + apply handleSubmit_guarded. auto.
    + apply handleDelete_guarded. auto.
Qed.

Lemma card_and_drawer_agree_on_creator_witness :
  let p := {| id := "7"; createdById := Some "ana"; p_title := Some "Lamp";
              p_description := None; p_price := Some 10; p_quantityInStock := None;
              p_sku := None; p_isActive := Some true; p_status := None;
              p_categoryId := None |} in
  let d := {| ProductsCard.base := p; ProductsCard.categoryName := None;
              ProductsCard.category := None |} in
  let pr := {| product := Some p; onProductUpdated := true; onClose := true |} in
  let a := {| user_id := Some "luis"; accessToken := "t";
              permissions := Some ["Permissions.Products.Edit"] |} in
  ProductsCard.click_edit (user_id a) true d = [].
Proof.
  intros p d pr a.
  destruct (card_and_drawer_agree_on_creator a d pr initial true eq_refl)
    as (_ & _ & H).
  exact (proj1 (H eq_refl)).
Defined.

(** The card never shows an empty category or SKU: an empty name counts as
    missing, the category name comes before the title of the category, and
    the fallbacks are "Uncategorized" and "N/A". *)
Theorem card_labels_never_empty (d : ProductsCard.Data) :
  ProductsCard.category_text d <> ""
  /\ ProductsCard.sku_text d <> ""
  /\ (forall n, ProductsCard.categoryName d = Some n -> n <> "" ->
        ProductsCard.category_text d = n)
  /\ (forall t,
        ProductsCard.categoryName d = None \/ ProductsCard.categoryName d = Some "" ->
        ProductsCard.category_and_title d = Some t -> t <> "" ->
        ProductsCard.category_text d = t)
  /\ (ProductsCard.categoryName d = None \/ ProductsCard.categoryName d = Some "" ->
      ProductsCard.category_and_title d = None
      \/ ProductsCard.category_and_title d = Some "" ->
      ProductsCard.category_text d = "Uncategorized")
  /\ (p_sku (ProductsCard.base d) = None \/ p_sku (ProductsCard.base d) = Some "" ->
      ProductsCard.sku_text d = "N/A").
Proof.
  unfold ProductsCard.category_text, ProductsCard.sku_text, or_string.
  repeat split.
  - destruct (ProductsCard.categoryName d) as [[|]|];
      destruct (ProductsCard.category_and_title d) as [[|]|]; discriminate.
  - destruct (p_sku (ProductsCard.base d)) as [[|]|]; discriminate.
  - intros n Hn Hne. rewrite Hn. now destruct n.
  - intros t Hn Ht Hne. rewrite Ht.
    destruct Hn as [-> | ->]; now destruct t.
  - intros Hn Ht. destruct Hn as [-> | ->]; destruct Ht as [-> | ->]; reflexivity.
  - intros [-> | ->]; reflexivity.
Qed.

Lemma card_labels_never_empty_witness :
  let p := {| id := "7"; createdById := Some "ana"; p_title := Some "Lamp";
              p_description := None; p_price := Some 10; p_quantityInStock := None;
              p_sku := Some ""; p_isActive := Some true; p_status := None;
              p_categoryId := None |} in
  let d := {| ProductsCard.base := p; ProductsCard.categoryName := Some "";
              ProductsCard.category :=
                Some {| ProductsCard.category_title := Some "Lighting" |} |} in
  ProductsCard.category_text d = "Lighting" /\ ProductsCard.sku_text d = "N/A".
Proof.
  intros p d.
  destruct (card_labels_never_empty d) as (_ & _ & _ & H4 & _ & H6).
  split.
  - apply H4; [now right | reflexivity | discriminate].
  - apply H6. now right.
Defined.

End Card.

(** * The category options *)

Section CategoryOptions.

Import EditProductDrawer Categories.



End CategoryOptions.

(** * Order of the rows, and the remaining witnesses *)

Section RowOrder.

Import Contributions TableControls.

Lemma StronglySorted_app_inv {A : Type} (R : A -> A -> Prop) (l1 l2 : list A) :
  StronglySorted R (l1 ++ l2) -> StronglySorted R l1 /\ StronglySorted R l2.
Proof.
  induction l1 as [|x l1 IH]; simpl; intro H.
  - split; [constructor | exact H].
  - inversion H as [|? ? Hs Hx]; subst. destruct (IH Hs) as [H1 H2].
    split; [|exact H2]. constructor; [exact H1|].
    apply Forall_app in Hx. tauto.
Qed.

Lemma StronglySorted_slice {A : Type} (R : A -> A -> Prop) (l : list A) (lo hi : Z) :
  StronglySorted R l -> StronglySorted R (JS.slice l lo hi).
Proof.
  intro H. unfold JS.slice.
  set (k := Z.to_nat (if lo <? 0 then _ else _)).
  set (m := Z.to_nat _).
  rewrite <- (firstn_skipn k l) in H. apply StronglySorted_app_inv in H.
  destruct H as [_ H]. rewrite <- (firstn_skipn m (skipn k l)) in H.
  now apply StronglySorted_app_inv in H.
Qed.

(** The rows of a page are in the order of the sort: ascending by the sort
    key when the direction is ascending, descending when it is descending,
    whatever the page index and the page size. *)
Theorem page_rows_are_ordered (v : View) :
  let acc := columnAccessor (sortStatus v) in
  (direction (sortStatus v) = asc ->
   StronglySorted (Spec.key_le acc) (paginated v))
  /\ (direction (sortStatus v) = desc ->
      StronglySorted (fun x y => Spec.key_le acc y x) (paginated v)).
Proof.
  intro acc.
  assert (S : StronglySorted (Spec.key_le acc) (sortBy (filtered v) acc)).
  { apply Sorted_StronglySorted; [apply key_le_trans|].
    now destruct (sortBy_StableSortAsc acc (filtered v)) as [_ [S _]]. }
  split; intro Hd; unfold paginated, sorted; fold acc; rewrite Hd;
    apply StronglySorted_slice.
  - exact S.
  - now apply StronglySorted_rev.
Qed.

Lemma page_rows_are_ordered_witness :
  let rec_ n s c := {| description := ""; id := n; name := s;
                       propertiesCount := c; status := "pending" |} in
  let v := {| data := [rec_ 1 "a" 3; rec_ 2 "b" 9; rec_ 3 "c" 5]; page := 1;
              pageSize := 2; records := [];
              sortStatus := {| columnAccessor := acc_propertiesCount;
                               direction := desc |};
              debouncedQuery := ""; selectedStatuses := [] |} in
  StronglySorted (fun x y => propertiesCount y <= propertiesCount x) (paginated v).
Proof.
  intros rec_ v. exact (proj2 (page_rows_are_ordered v) eq_refl).
Defined.

Lemma button_timer_only_while_running_witness :
  let s := button_run (Click :: repeat Tick 51) in
  progress s = 100 /\ interval_active s = false.
Proof.
  intro s.
  destruct (button_timer_only_while_running (Click :: repeat Tick 51))
    as (Hi & _ & _ & Hd & _).
  fold s in Hi, Hd. split; [apply Hd; reflexivity | rewrite Hi; reflexivity].
Defined.

End RowOrder.

Section DisciplineWitnesses.

Import EditProductDrawer DrawerEvents.

Lemma submit_event_discipline_witness :
  let p := {| id := "7"; createdById := Some "ana"; p_title := Some "Lamp";
              p_description := None; p_price := Some 10; p_quantityInStock := None;
              p_sku := None; p_isActive := Some true; p_status := None;
              p_categoryId := None |} in
  let pr := {| product := Some p; onProductUpdated := true; onClose := true |} in
  let a := {| user_id := Some "ana"; accessToken := "t";
              permissions := Some ["Permissions.Products.Edit"] |} in
  let env := {| window_confirm := fun _ => true;
                fetch := fun _ => Rejected NotAnError |} in
  let s := {| loading := true; isCreator := true; values := initialValues |} in
  loading (fst (run (handleSubmit pr a initialValues) env s)) = false.
Proof.
  intros p pr a env s.
  destruct (submit_event_discipline pr a initialValues env s)
    as (_ & _ & _ & _ & _ & _ & _ & H).
  apply H. reflexivity.
Defined.

Lemma delete_event_discipline_witness :
  let p := {| id := "7"; createdById := Some "ana"; p_title := Some "Lamp";
              p_description := None; p_price := Some 10; p_quantityInStock := None;
              p_sku := None; p_isActive := Some true; p_status := None;
              p_categoryId := None |} in
  let pr := {| product := Some p; onProductUpdated := true; onClose := true |} in
  let a := {| user_id := Some "ana"; accessToken := "t"; permissions := None |} in
  let env := {| window_confirm := fun _ => false;
                fetch := fun _ => Rejected NotAnError |} in
  let s := {| loading := false; isCreator := true; values := initialValues |} in
  count is_fetch (snd (run (handleDelete pr a) env s)) = 0%nat
  /\ fst (run (handleDelete pr a) env s) = s.
Proof.
  intros p pr a env s.
  destruct (delete_event_discipline pr a env s)
    as (_ & _ & _ & _ & _ & _ & H7 & _ & H9).
  split; [exact (H9 eq_refl) | exact (H7 (H9 eq_refl))].
Defined.

End DisciplineWitnesses.
